(** * Device placement specifiers: [tensorflow/python/framework/device.py]

    A shallow embedding of the [Device] class and of the module-level
    helpers [from_string], [check_valid] and [merge_device], together
    with the properties of parsing, serialisation and merging.

    Python objects live in a store: a [Device] instance is a reference
    into a list of records, attribute assignment updates the record in
    place, and [copy.copy] allocates a new record.  Every method is
    written in a small state-and-exception monad over that store, so
    aliasing between a captured spec, its copies and the parsed
    candidates is visible in the model. *)

From Stdlib Require Import ZArith Bool Ascii String List Lia.
From Stdlib Require Import DecimalString DecimalZ DecimalPos.
From stdpp Require Import base tactics option list strings.

(** ** Python strings

    A [str] is a [string]; the operations below are the ones the module
    calls: [split] with a one-character separator, [upper], and the
    whitespace stripping done by [int]. *)

Module Str.

(** [s.split(sep)]: the pieces between the occurrences of [sep]; the
    result always has at least one piece ([""] splits into [[""]]). *)
Fixpoint split (sep : ascii) (s : string) : list string :=
  match s with
  | EmptyString => [EmptyString]
  | String c r =>
      if Ascii.eqb c sep then EmptyString :: split sep r
      else match split sep r with
           | piece :: pieces => String c piece :: pieces
           | [] => [String c EmptyString]
           end
  end.

Definition upper_ascii (c : ascii) : ascii :=
  let n := nat_of_ascii c in
  if (97 <=? n) && (n <=? 122) then ascii_of_nat (n - 32) else c.

(** [s.upper()] on the ASCII letters. *)
Fixpoint upper (s : string) : string :=
  match s with
  | EmptyString => EmptyString
  | String c r => String (upper_ascii c) (upper r)
  end.

(** The characters [str.strip()] removes: space, tab, newline, vertical
    tab, form feed and carriage return. *)
Definition is_space (c : ascii) : bool :=
  let n := nat_of_ascii c in
  (n =? 32) || ((9 <=? n) && (n <=? 13)).

Fixpoint lstrip (s : string) : string :=
  match s with
  | EmptyString => EmptyString
  | String c r => if is_space c then lstrip r else s
  end.

Fixpoint rstrip (s : string) : string :=
  match s with
  | EmptyString => EmptyString
  | String c r =>
      match rstrip r with
      | EmptyString => if is_space c then EmptyString else String c EmptyString
      | r' => String c r'
      end
  end.

Definition strip (s : string) : string := rstrip (lstrip s).

Definition is_digit (c : ascii) : bool :=
  let n := nat_of_ascii c in (48 <=? n) && (n <=? 57).

Definition is_alpha (c : ascii) : bool :=
  let n := nat_of_ascii c in
  ((65 <=? n) && (n <=? 90)) || ((97 <=? n) && (n <=? 122)).

Fixpoint all (p : ascii -> bool) (s : string) : bool :=
  match s with
  | EmptyString => true
  | String c r => p c && all p r
  end.

(** [s.isalnum()]: non-empty and made of letters and digits only. *)
Definition isalnum (s : string) : bool :=
  negb (String.eqb s EmptyString) && all (fun c => is_alpha c || is_digit c) s.

(** [sep not in s]. *)
Definition lacks (sep : ascii) (s : string) : bool :=
  all (fun c => negb (Ascii.eqb c sep)) s.

(** ["/" not in s and ":" not in s]. *)
Definition no_separator (s : string) : bool :=
  all (fun c => negb (Ascii.eqb c "/") && negb (Ascii.eqb c ":")) s.

End Str.

(** ** Python values, exceptions and the builtins [str] and [int] *)

(** The values a caller can pass for a field: [None], a [bool], an [int]
    or a [str].  Floats and other objects are left out. *)
Inductive value : Type :=
| VNone
| VBool (b : bool)
| VInt (n : Z)
| VStr (s : string).

(** The exceptions of the module.  The three [ValueError]s are told apart
    by what raised them: [int] on a literal it cannot read, and the two
    [raise] statements of [parse_from_string], which carry the strings
    they interpolate in their message. *)
Inductive exn : Type :=
| InvalidLiteral (literal : string)
| MultipleDeviceTypes (spec : string)
| UnknownAttribute (token spec : string)
| TypeError.

Inductive outcome (A : Type) : Type :=
| Return (a : A)
| Raise (e : exn).
Arguments Return {A} a.
Arguments Raise {A} e.

Definition is_not_None (v : value) : bool :=
  match v with VNone => false | _ => true end.

(** [v == s] for a string literal [s]. *)
Definition eq_str (v : value) (s : string) : bool :=
  match v with VStr s' => String.eqb s' s | _ => false end.

(** [str(n)] for an integer: decimal digits, with a leading [-] when
    negative. *)
Definition str_of_Z (n : Z) : string := NilZero.string_of_int (Z.to_int n).

(** [str(v)], also what [%s] formats. *)
Definition str (v : value) : string :=
  match v with
  | VNone => "None"
  | VBool true => "True"
  | VBool false => "False"
  | VInt n => str_of_Z n
  | VStr s => s
  end.

(** [int(s)] on a string, base 10: surrounding whitespace is dropped, one
    sign is allowed, and at least one digit must follow and nothing
    else.  The digit grouping with underscores that later versions of
    Python accept, and digits and whitespace outside ASCII, are not
    modelled. *)
Definition int_of_str (s : string) : option Z :=
  let body := Str.strip s in
  let '(negative, digits) :=
    match body with
    | String "-" r => (true, r)
    | String "+" r => (false, r)
    | _ => (false, body)
    end in
  match digits with
  | EmptyString => None
  | _ =>
      match NilEmpty.uint_of_string digits with
      | Some d => Some (if negative then (- Z.of_uint d)%Z else Z.of_uint d)
      | None => None
      end
  end.

(** [int(v)]. *)
Definition int (v : value) : outcome Z :=
  match v with
  | VNone => Raise TypeError
  | VBool b => Return (if b then 1%Z else 0%Z)
  | VInt n => Return n
  | VStr s =>
      match int_of_str s with
      | Some n => Return n
      | None => Raise (InvalidLiteral s)
      end
  end.

(** [x or ""] for an optional string. *)
Definition or_empty (x : option string) : string :=
  match x with
  | Some s => s
  | None => EmptyString
  end.

(** ** The object store *)

(** The attributes of one [Device] instance.  [_job], [_replica] and
    [_task] are written through the property setters only, which store a
    [str] and [int]s; [device_type] and [device_index] are plain
    attributes and hold whatever value was assigned. *)
Record fields : Type := Fields {
  _job : option string;
  _replica : option Z;
  _task : option Z;
  device_type : value;
  device_index : value
}.

Definition blank : fields := Fields None None None VNone VNone.

#[global] Instance fields_inhabited : Inhabited fields := populate blank.

Definition with_job (j : option string) (d : fields) : fields :=
  Fields j (_replica d) (_task d) (device_type d) (device_index d).
Definition with_replica (r : option Z) (d : fields) : fields :=
  Fields (_job d) r (_task d) (device_type d) (device_index d).
Definition with_task (t : option Z) (d : fields) : fields :=
  Fields (_job d) (_replica d) t (device_type d) (device_index d).
Definition with_device_type (v : value) (d : fields) : fields :=
  Fields (_job d) (_replica d) (_task d) v (device_index d).
Definition with_device_index (v : value) (d : fields) : fields :=
  Fields (_job d) (_replica d) (_task d) (device_type d) v.

(** A reference to an instance is its position in the store.  Objects are
    never freed, and a reference obtained from [new_object] or
    [copy_copy] is always in range. *)
Abbreviation loc := nat.
Abbreviation heap := (list fields).

(** Computations that read and write the store and may raise. *)
Definition Py (A : Type) : Type := heap -> heap * outcome A.

#[global] Instance Py_ret : MRet Py := fun A a h => (h, Return a).

#[global] Instance Py_bind : MBind Py := fun A B f m h =>
  match m h with
  | (h', Return a) => f a h'
  | (h', Raise e) => (h', Raise e)
  end.

Definition raise {A : Type} (e : exn) : Py A := fun h => (h, Raise e).

Definition lift {A : Type} (o : outcome A) : Py A := fun h => (h, o).

(** [obj.field] *)
Definition getattr {A : Type} (field : fields -> A) (obj : loc) : Py A :=
  fun h => (h, Return (field (h !!! obj))).

(** [obj.field = v], as the update of the record of [obj]. *)
Definition setattr (obj : loc) (update : fields -> fields) : Py unit :=
  fun h => (<[obj := update (h !!! obj)]> h, Return tt).

(** A new instance, before [__init__] has assigned its attributes. *)
Definition new_object : Py loc :=
  fun h => (h ++ [blank], Return (length h)).

(** [copy.copy(obj)]: a new instance with the same attribute values. *)
Definition copy_copy (obj : loc) : Py loc :=
  fun h => (h ++ [h !!! obj], Return (length h)).

(** [for x in l: body(x)] *)
Fixpoint for_each {A : Type} (l : list A) (body : A -> Py unit) : Py unit :=
  match l with
  | [] => mret tt
  | x :: rest => body x;; for_each rest body
  end.

(** [y[i]]; every use below is guarded by a test on [len(y)]. *)
Definition item (y : list string) (i : nat) : string := nth i y EmptyString.

(** [splits = [x.split(":") for x in spec.split("/")]] *)
Definition splits (spec : string) : list (list string) :=
  map (Str.split ":") (Str.split "/" spec).

(** ** class Device *)

Module Device.

(** The property getters. *)
Definition job (self : loc) : Py (option string) := getattr _job self.
Definition replica (self : loc) : Py (option Z) := getattr _replica self.
Definition task (self : loc) : Py (option Z) := getattr _task self.

(** The property setters. *)
Definition set_job (self : loc) (job : value) : Py unit :=
  if is_not_None job then setattr self (with_job (Some (str job)))
  else setattr self (with_job None).

Definition set_replica (self : loc) (replica : value) : Py unit :=
  if is_not_None replica then
    n ← lift (int replica); setattr self (with_replica (Some n))
  else setattr self (with_replica None).

Definition set_task (self : loc) (task : value) : Py unit :=
  if is_not_None task then
    n ← lift (int task); setattr self (with_task (Some n))
  else setattr self (with_task None).

(** [device_type.upper()]; only reached for the strings ["cpu"] and
    ["gpu"]. *)
Definition upper_value (v : value) : value :=
  match v with
  | VStr s => VStr (Str.upper s)
  | _ => v
  end.

Definition __init__ (self : loc)
    (job replica task device_type device_index : value) : Py unit :=
  set_job self job;;
  set_replica self replica;;
  set_task self task;;
  (if eq_str device_type "cpu" || eq_str device_type "gpu" then
     setattr self (with_device_type (upper_value device_type))
   else
     setattr self (with_device_type device_type));;
  setattr self (with_device_index device_index).

(** [Device(job, replica, task, device_type, device_index)] *)
Definition new (job replica task device_type device_index : value) : Py loc :=
  self ← new_object;
  __init__ self job replica task device_type device_index;;
  mret self.

Definition _clear (self : loc) : Py unit :=
  setattr self (with_job None);;
  setattr self (with_replica None);;
  setattr self (with_task None);;
  setattr self (with_device_type VNone);;
  setattr self (with_device_index VNone).

(** The body of the loop of [parse_from_string], for one element [y] of
    [splits]. *)
Definition parse_segment (self : loc) (spec : string) (y : list string) : Py unit :=
  let ly := length y in
  if negb (ly =? 0) then
    if (ly =? 2) && String.eqb (item y 0) "job" then
      set_job self (VStr (item y 1))
    else if (ly =? 2) && String.eqb (item y 0) "replica" then
      set_replica self (VStr (item y 1))
    else if (ly =? 2) && String.eqb (item y 0) "task" then
      set_task self (VStr (item y 1))
    else if ((ly =? 1) || (ly =? 2)) &&
            (String.eqb (Str.upper (item y 0)) "GPU" ||
             String.eqb (Str.upper (item y 0)) "CPU") then
      t ← getattr device_type self;
      if is_not_None t then raise (MultipleDeviceTypes spec)
      else
        setattr self (with_device_type (VStr (Str.upper (item y 0))));;
        if (ly =? 2) && negb (String.eqb (item y 1) "*") then
          n ← lift (int (VStr (item y 1)));
          setattr self (with_device_index (VInt n))
        else mret tt
    else if (ly =? 3) && String.eqb (item y 0) "device" then
      t ← getattr device_type self;
      if is_not_None t then raise (MultipleDeviceTypes spec)
      else
        setattr self (with_device_type (VStr (item y 1)));;
        if negb (String.eqb (item y 2) "*") then
          n ← lift (int (VStr (item y 2)));
          setattr self (with_device_index (VInt n))
        else mret tt
    else if negb (ly =? 0) && negb (String.eqb (item y 0) "") then
      raise (UnknownAttribute (item y 0) spec)
    else mret tt
  else mret tt.

Definition parse_from_string (self : loc) (spec : string) : Py loc :=
  _clear self;;
  let splits := splits spec in
  for_each splits (parse_segment self spec);;
  mret self.

Definition merge_from (self dev : loc) : Py unit :=
  j ← job dev;
  match j with Some j => set_job self (VStr j) | None => mret tt end;;
  r ← replica dev;
  match r with Some r => set_replica self (VInt r) | None => mret tt end;;
  t ← task dev;
  match t with Some t => set_task self (VInt t) | None => mret tt end;;
  ty ← getattr device_type dev;
  (if is_not_None ty then setattr self (with_device_type ty) else mret tt);;
  ix ← getattr device_index dev;
  (if is_not_None ix then setattr self (with_device_index ix) else mret tt).

Definition to_string (self : loc) : Py string :=
  let dev := EmptyString in
  j ← job self;
  let dev := match j with Some j => dev +:+ "/job:" +:+ j | None => dev end in
  r ← replica self;
  let dev := match r with
             | Some r => dev +:+ "/replica:" +:+ str (VInt r)
             | None => dev
             end in
  t ← task self;
  let dev := match t with
             | Some t => dev +:+ "/task:" +:+ str (VInt t)
             | None => dev
             end in
  ty ← getattr device_type self;
  if is_not_None ty then
    ix ← getattr device_index self;
    let device_index_string := if is_not_None ix then str ix else "*"%string in
    mret (dev +:+ "/device:" +:+ str ty +:+ ":" +:+ device_index_string)
  else mret dev.

End Device.

(** ** Module-level functions *)

Definition from_string (spec : string) : Py loc :=
  self ← Device.new VNone VNone VNone VNone VNone;
  Device.parse_from_string self spec.

Definition check_valid (spec : string) : Py unit :=
  from_string spec;; mret tt.

(** A graph node, of which only the [device] string is read. *)
Record NodeDef : Type := { device : option string }.

(** What [merge_device] accepts: a [Device] instance, or a string or
    [None]. *)
Inductive spec_arg : Type :=
| SpecDevice (d : loc)
| SpecStr (s : option string).

(** The function [merge_device] returns, closed over [spec]. *)
Definition _device_function (spec : loc) (node_def : NodeDef) : Py loc :=
  current_device ← from_string (or_empty (device node_def));
  copy_spec ← copy_copy spec;
  Device.merge_from copy_spec current_device;;
  mret copy_spec.

Definition merge_device (spec : spec_arg) : Py (NodeDef -> Py loc) :=
  spec ← match spec with
         | SpecDevice d => mret d
         | SpecStr s => from_string (or_empty s)
         end;
  mret (_device_function spec).

(** ** Definitions used by the statements and the proofs *)

(** The loop of [parse_from_string], run on a cleared object. *)
Definition parse_loop (spec : string) (self : loc) : Py unit :=
  for_each (splits spec) (Device.parse_segment self spec).

(** The outcome of a computation that returns the reference [l] when it
    does not raise. *)
Definition lift_loc {A} (l : loc) (r : outcome A) : outcome loc :=
  match r with
  | Return _ => Return l
  | Raise e => Raise e
  end.

(** What a computation indexed by [self] does to the record of [self],
    observed on the one-object store. *)
Definition focus {A : Type} (p : loc -> Py A) (d : fields) : fields * outcome A :=
  let '(h1, r) := p 0 [d] in (h1 !!! 0, r).

(** A computation indexed by [self] is [local] when, on any store, it
    behaves as it does on the one-object store holding the record of
    [self]: it reads and writes no other object, and its outcome does not
    depend on where [self] lives. *)
Definition local {A : Type} (p : loc -> Py A) : Prop :=
  forall self h, self < length h ->
    p self h = (<[self := (focus p (h !!! self)).1]> h, (focus p (h !!! self)).2).

(** *** Serialisation, as the specification words it *)

Definition job_segment (d : fields) : string :=
  match _job d with
  | Some j => "/job:" +:+ j
  | None => ""
  end.

Definition replica_segment (d : fields) : string :=
  match _replica d with
  | Some r => "/replica:" +:+ str_of_Z r
  | None => ""
  end.

Definition task_segment (d : fields) : string :=
  match _task d with
  | Some t => "/task:" +:+ str_of_Z t
  | None => ""
  end.

Definition index_or_star (d : fields) : string :=
  match device_index d with
  | VNone => "*"
  | ix => str ix
  end.

Definition device_segment (d : fields) : string :=
  match device_type d with
  | VNone => ""
  | ty => "/device:" +:+ str ty +:+ ":" +:+ index_or_star d
  end.

Definition canonical (d : fields) : string :=
  job_segment d +:+ replica_segment d +:+ task_segment d +:+ device_segment d.

(** The same string as a list of segments without their leading [/]. *)
Definition job_body (d : fields) : list string :=
  match _job d with
  | Some j => ["job:" +:+ j]
  | None => []
  end.

Definition replica_body (d : fields) : list string :=
  match _replica d with
  | Some r => ["replica:" +:+ str_of_Z r]
  | None => []
  end.

Definition task_body (d : fields) : list string :=
  match _task d with
  | Some t => ["task:" +:+ str_of_Z t]
  | None => []
  end.

Definition device_body (d : fields) : list string :=
  match device_type d with
  | VNone => []
  | ty => ["device:" +:+ str ty +:+ ":" +:+ index_or_star d]
  end.

Definition bodies (d : fields) : list string :=
  job_body d ++ replica_body d ++ task_body d ++ device_body d.

Fixpoint join (bs : list string) : string :=
  match bs with
  | [] => ""
  | b :: bs => "/" +:+ b +:+ join bs
  end.

(** *** Construction, as the specification words it *)

(** [job] becomes a string when present. *)
Definition coerce_str (v : value) : option string :=
  match v with
  | VNone => None
  | _ => Some (str v)
  end.

(** [replica] and [task] become integers when present, or the
    construction fails. *)
Definition coerce_int (v : value) : outcome (option Z) :=
  match v with
  | VNone => Return None
  | _ => match int v with
         | Return n => Return (Some n)
         | Raise e => Raise e
         end
  end.

(** Exactly ["cpu"] and ["gpu"] are upper-cased. *)
Definition normalise_type (v : value) : value :=
  if eq_str v "cpu" then VStr "CPU"
  else if eq_str v "gpu" then VStr "GPU"
  else v.

(** *** Merging, as the specification words it *)

Definition or_else {A} (o fallback : option A) : option A :=
  match o with
  | Some x => Some x
  | None => fallback
  end.

Definition value_or_else (v fallback : value) : value :=
  match v with
  | VNone => fallback
  | _ => v
  end.

(** Each field of [other] that is present replaces the field of [self];
    the others are kept. *)
Definition overlay (self other : fields) : fields :=
  Fields (or_else (_job other) (_job self))
         (or_else (_replica other) (_replica self))
         (or_else (_task other) (_task self))
         (value_or_else (device_type other) (device_type self))
         (value_or_else (device_index other) (device_index self)).

(** The overlay of the claim that also applies the normalisation of the
    constructor to the incoming [device_type]. *)
Definition overlay_normalised (self other : fields) : fields :=
  Fields (or_else (_job other) (_job self))
         (or_else (_replica other) (_replica self))
         (or_else (_task other) (_task self))
         (value_or_else (normalise_type (device_type other)) (device_type self))
         (value_or_else (device_index other) (device_index self)).

(** *** The grammar of a segment *)

(** The short device form: [CPU] or [GPU] in any case, alone or with one
    more token. *)
Definition short_form (y : list string) : bool :=
  ((length y =? 1) || (length y =? 2)) &&
  (String.eqb (Str.upper (item y 0)) "GPU" || String.eqb (Str.upper (item y 0)) "CPU").

(** The long device form: [device:<kind>:<idx>]. *)
Definition long_form (y : list string) : bool :=
  (length y =? 3) && String.eqb (item y 0) "device".

(** [key:<value>] for one of the keywords [job], [replica], [task]. *)
Definition keyed (key : string) (y : list string) : bool :=
  (length y =? 2) && String.eqb (item y 0) key.

(** A segment that specifies a device kind, in either form. *)
Definition device_form (y : list string) : bool :=
  short_form y || long_form y.

(** A segment of one of the recognised forms. *)
Definition recognised (y : list string) : bool :=
  keyed "job" y || keyed "replica" y || keyed "task" y || device_form y.

(** *** The constrained grammar of the round trip *)

Definition constrained_int (o : option Z) : bool :=
  match o with
  | Some n => (0 <=? n)%Z
  | None => true
  end.

Definition constrained (d : fields) : bool :=
  match _job d with Some j => Str.no_separator j | None => true end
  && constrained_int (_replica d)
  && constrained_int (_task d)
  && match device_type d with
     | VNone => true
     | VStr t => String.eqb t "CPU" || String.eqb t "GPU" || Str.isalnum t
     | _ => false
     end
  && match device_index d with
     | VNone => true
     | VInt n => (0 <=? n)%Z
     | _ => false
     end.

(** [device_index] is present only together with [device_type]. *)
Definition coupled (d : fields) : bool :=
  negb (is_not_None (device_index d)) || is_not_None (device_type d).

(** *** Scoped merging *)

(** The reference [merge_device] captures: the instance it was given, or
    the object it parses the string into. *)
Definition captured (spec : spec_arg) (h : heap) : loc :=
  match spec with
  | SpecDevice d => d
  | SpecStr _ => length h
  end.

(** The spec of a node with device string [candidate] in the scope of
    [outer], serialised. *)
Definition resolve (outer candidate : string) : Py string :=
  f ← merge_device (SpecStr (Some outer));
  merged ← f {| device := Some candidate |};
  Device.to_string merged.

(** *** The shape of the specs the parser builds *)

(** The strings hold no separator, [device_type] is absent or a string,
    [device_index] is absent or an integer, and it is present only
    together with [device_type]. *)
Definition wellformed (d : fields) : bool :=
  match _job d with
  | Some j => Str.lacks "/" j && Str.lacks ":" j
  | None => true
  end
  && match device_type d with
     | VNone => true
     | VStr kind => Str.lacks "/" kind && Str.lacks ":" kind
     | _ => false
     end
  && match device_index d with
     | VNone | VInt _ => true
     | _ => false
     end
  && coupled d.

(** A token of a segment: a piece between separators. *)
Definition token (t : string) : bool := Str.lacks "/" t && Str.lacks ":" t.

(** What one segment [y] can do to the record of [self]: nothing, or one
    of the assignments of the loop of [parse_from_string]. *)
Inductive effect (y : list string) (d : fields) : fields -> Prop :=
| effect_none : effect y d d
| effect_job :
    keyed "job" y = true -> effect y d (with_job (Some (item y 1)) d)
| effect_replica n :
    keyed "job" y = false -> keyed "replica" y = true ->
    effect y d (with_replica (Some n) d)
| effect_task n :
    keyed "job" y = false -> keyed "task" y = true ->
    effect y d (with_task (Some n) d)
| effect_short :
    keyed "job" y = false -> short_form y = true -> device_type d = VNone ->
    effect y d (with_device_type (VStr (Str.upper (item y 0))) d)
| effect_short_index n :
    keyed "job" y = false -> short_form y = true -> device_type d = VNone ->
    effect y d (with_device_index (VInt n)
                  (with_device_type (VStr (Str.upper (item y 0))) d))
| effect_long :
    keyed "job" y = false -> long_form y = true -> device_type d = VNone ->
    effect y d (with_device_type (VStr (item y 1)) d)
| effect_long_index n :
    keyed "job" y = false -> long_form y = true -> device_type d = VNone ->
    effect y d (with_device_index (VInt n) (with_device_type (VStr (item y 1)) d)).

(** [a == b] for the outcomes of two parses of different strings: the
    same result, or exceptions of the same kind. *)
Definition same_kind {A} (r1 r2 : outcome A) : Prop :=
  match r1, r2 with
  | Return a, Return b => a = b
  | Raise (InvalidLiteral s1), Raise (InvalidLiteral s2) => s1 = s2
  | Raise (MultipleDeviceTypes _), Raise (MultipleDeviceTypes _) => True
  | Raise (UnknownAttribute t1 _), Raise (UnknownAttribute t2 _) => t1 = t2
  | Raise TypeError, Raise TypeError => True
  | _, _ => False
  end.

(** The errors one segment can raise. *)
Definition segment_error (spec : string) (y : list string) (e : exn) : Prop :=
  (exists t, (t = item y 1 \/ t = item y 2)
             /\ e = InvalidLiteral t /\ int (VStr t) = Raise e)
  \/ (e = MultipleDeviceTypes spec /\ device_form y = true)
  \/ (e = UnknownAttribute (item y 0) spec
      /\ recognised y = false /\ item y 0 <> "").

(** * Properties *)

#[local] Arguments String.append !s1 s2 : simpl nomatch.

(** ** The builtins on examples *)

Example split_slash : Str.split "/" "/job:w//cpu:0" = [""; "job:w"; ""; "cpu:0"].
Proof. reflexivity. Qed.

Example split_empty : Str.split ":" "" = [""].
Proof. reflexivity. Qed.

Example upper_mixed : Str.upper "cPu1" = "CPU1".
Proof. reflexivity. Qed.

Example int_padded : int (VStr " +042 ") = Return 42%Z.
Proof. reflexivity. Qed.

Example int_negative : int (VStr "-7") = Return (-7)%Z.
Proof. reflexivity. Qed.

Example int_star : int (VStr "*") = Raise (InvalidLiteral "*").
Proof. reflexivity. Qed.

Example int_sign_only : int (VStr "-") = Raise (InvalidLiteral "-").
Proof. reflexivity. Qed.

Example str_negative : str (VInt (-120)) = "-120".
Proof. reflexivity. Qed.

(** ** The store: reads after writes *)

Section Store.
Implicit Types (h : heap) (d : fields) (self obj : loc).

Lemma lookup_fresh h d : (h ++ [d]) !!! length h = d.
Proof.
  rewrite lookup_total_app_r by lia.
  by rewrite Nat.sub_diag.
Qed.

Lemma insert_fresh h d d' : <[length h := d']> (h ++ [d]) = h ++ [d'].
Proof.
  replace (length h) with (length h + 0) at 1 by lia.
  by rewrite insert_app_r.
Qed.

Lemma lookup_old h d obj : obj < length h -> (h ++ [d]) !!! obj = h !!! obj.
Proof. intros. by rewrite lookup_total_app_l. Qed.

Lemma insert_same h self d : self < length h -> d = h !!! self -> <[self := d]> h = h.
Proof.
  intros Hlt ->. apply list_insert_id.
  by apply list_lookup_lookup_total_lt.
Qed.

End Store.

(** ** Methods that touch [self] only

    The getters, setters and the parser are [local]; locality is closed
    under the operations of the monad, so it is proved by following the
    shape of each method. *)

Create HintDb local discriminated.

Lemma local_single {A} (p : loc -> Py A) d :
  local p -> p 0 [d] = ([(focus p d).1], (focus p d).2).
Proof. intros Hp. by rewrite (Hp 0 [d]) by (simpl; lia). Qed.

Section Local.
Context {A B : Type}.

Lemma local_ret (a : A) : local (fun _ => mret a).
Proof. intros self h Hlt. unfold focus; simpl. unfold mret, Py_ret. by rewrite insert_same. Qed.

Lemma local_raise (e : exn) : local (fun _ => raise (A:=A) e).
Proof. intros self h Hlt. unfold focus, raise; simpl. by rewrite insert_same. Qed.

Lemma local_lift (o : outcome A) : local (fun _ => lift o).
Proof. intros self h Hlt. unfold focus, lift; simpl. by rewrite insert_same. Qed.

Lemma local_getattr (field : fields -> A) : local (getattr field).
Proof. intros self h Hlt. unfold focus, getattr; simpl. by rewrite insert_same. Qed.

Lemma local_bind (p : loc -> Py A) (q : A -> loc -> Py B) :
  local p -> (forall a, local (q a)) ->
  local (fun self => p self ≫= fun a => q a self).
Proof.
  intros Hp Hq self h Hlt.
  unfold focus at 1 2. unfold mbind, Py_bind.
  rewrite (Hp self h Hlt), (local_single p _ Hp).
  destruct (focus p (h !!! self)) as [d1 [a|e]]; simpl; [|done].
  rewrite (Hq a self) by (by rewrite length_insert).
  rewrite (local_single (q a) _ (Hq a)).
  rewrite list_lookup_total_insert_eq by done.
  by rewrite list_insert_insert_eq.
Qed.

Lemma local_if (c : bool) (p q : loc -> Py A) :
  local p -> local q -> local (fun self => if c then p self else q self).
Proof. by destruct c. Qed.
End Local.

Lemma local_setattr (upd : fields -> fields) : local (fun self => setattr self upd).
Proof. intros self h Hlt. by unfold focus, setattr. Qed.

Lemma local_for_each {A} (l : list A) (body : A -> loc -> Py unit) :
  (forall x, local (body x)) ->
  local (fun self => for_each l (fun x => body x self)).
Proof.
  intros Hb. induction l as [|x l IH]; simpl.
  - apply local_ret.
  - apply (local_bind (body x) (fun _ self => for_each l (fun x => body x self))); auto.
Qed.

#[global] Hint Resolve local_ret local_raise local_lift local_getattr
  local_setattr : local.

Ltac local_step :=
  lazymatch goal with
  | |- local (fun self => if _ then _ else _) => apply local_if
  | |- local (fun self => match ?o with Some _ => _ | None => _ end) => destruct o
  | |- local (fun self => _ ≫= _) =>
      apply (local_bind (fun self => _) (fun a self => _)); [|intros ?]
  | |- _ => solve [auto with local]
  end.

Section DeviceLocal.
Import Device.

Lemma local_set_job v : local (fun self => set_job self v).
Proof. unfold set_job. repeat local_step. Qed.

Lemma local_set_replica v : local (fun self => set_replica self v).
Proof. unfold set_replica. repeat local_step. Qed.

Lemma local_set_task v : local (fun self => set_task self v).
Proof. unfold set_task. repeat local_step. Qed.

#[local] Hint Resolve local_set_job local_set_replica local_set_task : local.

Lemma local_clear : local _clear.
Proof. unfold _clear. repeat local_step. Qed.

Lemma local_parse_segment spec y : local (fun self => parse_segment self spec y).
Proof. unfold parse_segment. cbv zeta. repeat local_step. Qed.

End DeviceLocal.

(** ** Parsing into a fresh object *)

(** A local computation run on an object that was just allocated. *)
Lemma local_fresh {A} (p : loc -> Py A) h d :
  local p -> p (length h) (h ++ [d]) = (h ++ [(focus p d).1], (focus p d).2).
Proof.
  intros Hp. rewrite (Hp (length h)) by (rewrite length_app; simpl; lia).
  by rewrite lookup_fresh, insert_fresh.
Qed.

Lemma local_parse_loop spec : local (parse_loop spec).
Proof.
  unfold parse_loop.
  apply (local_for_each _ (fun y self => Device.parse_segment self spec y)).
  intros y. apply local_parse_segment.
Qed.

Lemma parse_from_string_focus spec self h :
  self < length h ->
  Device.parse_from_string self spec h =
  (<[self := (focus (parse_loop spec) blank).1]> h,
   lift_loc self (focus (parse_loop spec) blank).2).
Proof.
  intros Hlt. unfold Device.parse_from_string, mbind, Py_bind.
  rewrite (local_clear self h Hlt).
  change (focus Device._clear (h !!! self)) with (blank, Return tt); simpl.
  fold (parse_loop spec self).
  rewrite (local_parse_loop spec self) by (by rewrite length_insert).
  rewrite list_lookup_total_insert_eq, list_insert_insert_eq by done.
  by destruct (focus (parse_loop spec) blank) as [d [[]|e]].
Qed.

Lemma from_string_focus spec h :
  from_string spec h =
  (h ++ [(focus (parse_loop spec) blank).1],
   lift_loc (length h) (focus (parse_loop spec) blank).2).
Proof.
  unfold from_string, Device.new, new_object, mbind, Py_bind.
  change (Device.__init__ (length h) VNone VNone VNone VNone VNone (h ++ [blank]))
    with (Device._clear (length h) (h ++ [blank])).
  rewrite (local_fresh Device._clear h blank local_clear).
  change (focus Device._clear blank) with (blank, Return tt); simpl.
  rewrite parse_from_string_focus by (rewrite length_app; simpl; lia).
  by rewrite insert_fresh.
Qed.

(** [from_string] allocates one object and writes nothing else; what it
    stores there does not depend on the store it runs in. *)
Lemma from_string_fresh spec h :
  from_string spec h =
  (h ++ (from_string spec []).1, lift_loc (length h) (from_string spec []).2).
Proof.
  rewrite (from_string_focus spec h), (from_string_focus spec []); simpl.
  by destruct (focus (parse_loop spec) blank).2.
Qed.

Lemma from_string_single spec :
  exists d r, from_string spec [] = ([d], r).
Proof. rewrite from_string_focus. eauto. Qed.

(** ** Strings *)

Section Strings.
Implicit Types (s t u : string) (c sep : ascii).

Lemma append_nil_r s : s +:+ "" = s.
Proof. induction s; simpl; congruence. Qed.

Lemma append_assoc s t u : (s +:+ t) +:+ u = s +:+ t +:+ u.
Proof. induction s; simpl; congruence. Qed.

(** A string without the separator is its own single piece. *)
Lemma split_none sep s :
  Str.lacks sep s = true -> Str.split sep s = [s].
Proof.
  induction s as [|c s IH]; simpl; [done|].
  intros [Hc Hs]%andb_true_iff.
  apply negb_true_iff in Hc. rewrite Hc, (IH Hs). done.
Qed.

(** Splitting after a first piece that has no separator. *)
Lemma split_app sep s t :
  Str.lacks sep s = true ->
  Str.split sep (s +:+ String sep t) = s :: Str.split sep t.
Proof.
  induction s as [|c s IH]; simpl.
  - by rewrite Ascii.eqb_refl.
  - intros [Hc Hs]%andb_true_iff.
    apply negb_true_iff in Hc. by rewrite Hc, (IH Hs).
Qed.

Lemma all_impl (p q : ascii -> bool) s :
  (forall c, p c = true -> q c = true) -> Str.all p s = true -> Str.all q s = true.
Proof.
  intros Hpq. induction s as [|c s IH]; simpl; [done|].
  intros [Hc Hs]%andb_true_iff. by rewrite (Hpq c Hc), (IH Hs).
Qed.

Lemma all_app p s t : Str.all p (s +:+ t) = Str.all p s && Str.all p t.
Proof. induction s as [|c s IH]; simpl; [done|]. by rewrite IH, andb_assoc. Qed.

Lemma lacks_app sep s t : Str.lacks sep (s +:+ t) = Str.lacks sep s && Str.lacks sep t.
Proof. apply all_app. Qed.

Lemma no_separator_lacks s :
  Str.no_separator s = true -> Str.lacks "/" s = true /\ Str.lacks ":" s = true.
Proof.
  intros Hs. split; (eapply all_impl; [|exact Hs]); intros c Hc; simpl in Hc;
    by apply andb_true_iff in Hc as [? ?].
Qed.

Lemma digit_lacks sep s :
  Str.is_digit sep = false -> Str.all Str.is_digit s = true -> Str.lacks sep s = true.
Proof.
  intros Hsep. apply all_impl. intros c Hc.
  destruct (Ascii.eqb_spec c sep) as [->|]; [congruence|done].
Qed.

Lemma alnum_lacks sep s :
  Str.is_alpha sep || Str.is_digit sep = false ->
  Str.isalnum s = true -> Str.lacks sep s = true.
Proof.
  intros Hsep [_ Hs]%andb_true_iff. revert Hs. apply all_impl. intros c Hc.
  destruct (Ascii.eqb_spec c sep) as [->|]; [congruence|done].
Qed.

(** Stripping a string without whitespace. *)
Lemma lstrip_id c s : Str.is_space c = false -> Str.lstrip (String c s) = String c s.
Proof. intros Hc. simpl. by rewrite Hc. Qed.

Lemma rstrip_id s :
  Str.all (fun c => negb (Str.is_space c)) s = true -> Str.rstrip s = s.
Proof.
  induction s as [|c s IH]; simpl; [done|].
  intros [Hc Hs]%andb_true_iff. apply negb_true_iff in Hc.
  rewrite (IH Hs), Hc. by destruct s.
Qed.

Lemma strip_id s :
  Str.all (fun c => negb (Str.is_space c)) s = true -> Str.strip s = s.
Proof.
  intros Hs. unfold Str.strip. destruct s as [|c s]; [done|].
  pose proof Hs as [Hc _]%andb_true_iff. apply negb_true_iff in Hc.
  by rewrite lstrip_id, rstrip_id.
Qed.
End Strings.

(** ** Decimal numerals: [int(str(n)) = n] *)

Section Decimal.
Lemma string_of_uint_digits d :
  Str.all Str.is_digit (NilEmpty.string_of_uint d) = true.
Proof. induction d; simpl; try done. Qed.

Lemma string_of_uint_nonempty d :
  d <> Decimal.Nil -> NilEmpty.string_of_uint d <> "".
Proof. by destruct d. Qed.

Lemma str_of_Z_unsigned n :
  (0 <= n)%Z ->
  exists d, d <> Decimal.Nil /\ str_of_Z n = NilEmpty.string_of_uint d
            /\ Z.of_uint d = n.
Proof.
  intros Hn. destruct n as [|p|p]; [| |lia].
  - by exists (Decimal.D0 Decimal.Nil).
  - exists (Pos.to_uint p). split; [apply DecimalPos.Unsigned.to_uint_nonnil|].
    split.
    + unfold str_of_Z; simpl.
      pose proof (DecimalPos.Unsigned.to_uint_nonnil p).
      by destruct (Pos.to_uint p).
    + exact (DecimalZ.of_to (Z.pos p)).
Qed.

Lemma str_of_Z_digits n :
  (0 <= n)%Z -> Str.all Str.is_digit (str_of_Z n) = true /\ str_of_Z n <> "".
Proof.
  intros Hn. destruct (str_of_Z_unsigned n Hn) as (d & Hd & -> & _).
  split; [apply string_of_uint_digits|by apply string_of_uint_nonempty].
Qed.

Lemma int_of_str_of_Z n : (0 <= n)%Z -> int_of_str (str_of_Z n) = Some n.
Proof.
  intros Hn. destruct (str_of_Z_unsigned n Hn) as (d & Hd & Hs & Hv).
  unfold int_of_str. rewrite Hs.
  pose proof (string_of_uint_digits d) as Hdig.
  pose proof (string_of_uint_nonempty d Hd) as Hne.
  rewrite strip_id.
  2: { eapply all_impl; [|exact Hdig]. intros c.
       destruct c as [[] [] [] [] [] [] [] []]; try discriminate; reflexivity. }
  destruct (NilEmpty.string_of_uint d) as [|c s] eqn:Hstr; [done|].
  assert (Str.is_digit c = true) as Hc by (by apply andb_true_iff in Hdig as [? _]).
  destruct c as [[] [] [] [] [] [] [] []]; try discriminate Hc;
    rewrite <- Hstr, NilEmpty.usu, Hv; reflexivity.
Qed.

Lemma str_of_Z_not_star n : (0 <= n)%Z -> String.eqb (str_of_Z n) "*" = false.
Proof.
  intros Hn. destruct (str_of_Z_digits n Hn) as [Hdig _].
  destruct (String.eqb_spec (str_of_Z n) "*") as [E|]; [|done].
  by rewrite E in Hdig.
Qed.
End Decimal.

(** ** Serialisation *)

Lemma to_string_canonical h self :
  Device.to_string self h = (h, Return (canonical (h !!! self))).
Proof.
  unfold Device.to_string, Device.job, Device.replica, Device.task, getattr,
    mbind, mret, Py_bind, Py_ret, canonical, job_segment, replica_segment,
    task_segment, device_segment, index_or_star.
  cbv beta iota zeta.
  destruct (h !!! self) as [[j|] [r|] [t|] [|[]|n|s] [|[]|m|s']] eqn:E; simpl;
    rewrite ?E; simpl;
    repeat (progress (rewrite ?append_assoc, ?append_nil_r; simpl)); reflexivity.
Qed.

(** C7: [to_string] leaves the store as it is and returns the
    concatenation, in the order job, replica, task, device, of the
    segments of the present fields: each segment is empty exactly when
    its field is absent, the device segment prints [*] for an absent
    index and is empty (index included) when [device_type] is absent, and
    the spec with no field serialises to the empty string. *)
Theorem to_string_segments :
  (forall h self,
     Device.to_string self h =
     (h, Return (job_segment (h !!! self) +:+ replica_segment (h !!! self) +:+
                 task_segment (h !!! self) +:+ device_segment (h !!! self))))
  /\ (forall d,
        (job_segment d = match _job d with Some j => "/job:" +:+ j | None => "" end)
        /\ (replica_segment d =
            match _replica d with Some r => "/replica:" +:+ str (VInt r) | None => "" end)
        /\ (task_segment d =
            match _task d with Some t => "/task:" +:+ str (VInt t) | None => "" end)
        /\ (device_segment d =
            if is_not_None (device_type d) then
              "/device:" +:+ str (device_type d) +:+ ":" +:+
              (if is_not_None (device_index d) then str (device_index d) else "*")
            else ""))
  /\ (forall d,
        (job_segment d = "" <-> _job d = None)
        /\ (replica_segment d = "" <-> _replica d = None)
        /\ (task_segment d = "" <-> _task d = None)
        /\ (device_segment d = "" <-> device_type d = VNone))
  /\ (forall h self, h !!! self = blank -> Device.to_string self h = (h, Return "")).
Proof.
  split; [|split; [|split]].
  - intros. apply to_string_canonical.
  - intros [j r t ty ix]. repeat split; try reflexivity.
    unfold device_segment, index_or_star; simpl. by destruct ty, ix.
  - intros [[j|] [r|] [t|] ty ix];
      unfold job_segment, replica_segment, task_segment, device_segment; simpl;
      repeat split; intros; try done; by destruct ty.
  - intros h self Hb. by rewrite to_string_canonical, Hb.
Qed.

Lemma to_string_blank : Device.to_string 0 [blank] = ([blank], Return "").
Proof. exact (proj2 (proj2 (proj2 to_string_segments)) [blank] 0 eq_refl). Defined.

(** ** Construction *)

Lemma local_init job replica task ty ix :
  local (fun self => Device.__init__ self job replica task ty ix).
Proof.
  unfold Device.__init__.
  repeat first [local_step | apply local_set_job | apply local_set_replica
               | apply local_set_task].
Qed.

Lemma focus_init job replica task ty ix :
  focus (fun self => Device.__init__ self job replica task ty ix) blank =
  match coerce_int replica, coerce_int task with
  | Return r, Return t =>
      (Fields (coerce_str job) r t (normalise_type ty) ix, Return tt)
  | Return r, Raise e => (Fields (coerce_str job) r None VNone VNone, Raise e)
  | Raise e, _ => (Fields (coerce_str job) None None VNone VNone, Raise e)
  end.
Proof.
  unfold focus, Device.__init__, Device.set_job, Device.set_replica,
    Device.set_task, setattr, lift, mbind, mret, Py_bind, Py_ret,
    coerce_int, coerce_str, normalise_type, int.
  destruct job as [|[]|?|?], replica as [|[]|?|r]; simpl;
    try destruct (int_of_str r); simpl; try reflexivity;
    destruct task as [|[]|?|t]; simpl;
    try destruct (int_of_str t); simpl; try reflexivity;
    destruct ty as [|[]|?|kind]; simpl; try reflexivity;
    unfold eq_str;
    destruct (String.eqb_spec kind "cpu") as [->|?]; simpl; try reflexivity;
    destruct (String.eqb_spec kind "gpu") as [->|?]; simpl; reflexivity.
Qed.

(** C4, as the code has it: the constructor turns [job] into a string and
    [replica] and [task] into integers when they are present, and raises
    when [replica] or [task] cannot be read as an integer, in which case
    the caller gets no instance; [device_index] is stored as it was
    given, without coercion and without failure, and [device_type] is
    stored as given except for ["cpu"] and ["gpu"]. *)
Theorem init_coerces_properties job replica task ty ix h :
  Device.new job replica task ty ix h =
  match coerce_int replica, coerce_int task with
  | Return r, Return t =>
      (h ++ [Fields (coerce_str job) r t (normalise_type ty) ix], Return (length h))
  | Return r, Raise e =>
      (h ++ [Fields (coerce_str job) r None VNone VNone], Raise e)
  | Raise e, _ =>
      (h ++ [Fields (coerce_str job) None None VNone VNone], Raise e)
  end.
Proof.
  unfold Device.new, new_object, mbind, Py_bind.
  rewrite (local_fresh _ h blank (local_init job replica task ty ix)).
  rewrite focus_init.
  by destruct (coerce_int replica) as [r|e], (coerce_int task) as [t|e'].
Qed.

(** C4 as stated fails: a [device_index] that [int] rejects does not make
    the construction fail, and one that [int] accepts is not turned into
    an integer. *)
Lemma init_device_index_not_coerced :
  int (VStr "first") = Raise (InvalidLiteral "first")
  /\ Device.new VNone VNone VNone (VStr "GPU") (VStr "first") [] =
     ([Fields None None None (VStr "GPU") (VStr "first")], Return 0)
  /\ int (VStr "3") = Return 3%Z
  /\ Device.new VNone VNone VNone (VStr "GPU") (VStr "3") [] =
     ([Fields None None None (VStr "GPU") (VStr "3")], Return 0).
Proof. repeat split; reflexivity. Qed.

Example init_coerces_replica :
  Device.new (VInt 7) (VStr " 12 ") (VBool true) (VStr "gpu") (VInt 1) [] =
  ([Fields (Some "7") (Some 12%Z) (Some 1%Z) (VStr "GPU") (VInt 1)], Return 0).
Proof. reflexivity. Qed.

Example init_rejects_replica :
  Device.new (VStr "w") (VStr "two") VNone VNone VNone [] =
  ([Fields (Some "w") None None VNone VNone], Raise (InvalidLiteral "two")).
Proof. reflexivity. Qed.

(** ** Merging *)

Section Merge.
Implicit Types (h : heap) (d : fields) (self dev : loc).

(** Reading a field through any reference after a write to [self] that
    kept that field. *)
Lemma read_after_write {A} (proj : fields -> A) h self dev d :
  proj d = proj (h !!! self) ->
  proj (<[self := d]> h !!! dev) = proj (h !!! dev).
Proof.
  intros Hp. rewrite list_lookup_total_insert.
  case_decide as Hc; [by destruct Hc as [-> _]|done].
Qed.

Lemma merge_from_overlay h self dev :
  self < length h ->
  Device.merge_from self dev h =
  (<[self := overlay (h !!! self) (h !!! dev)]> h, Return tt).
Proof.
  intros Hlt.
  unfold Device.merge_from, Device.job, Device.replica, Device.task, getattr,
    Device.set_job, Device.set_replica, Device.set_task, setattr, lift,
    mbind, mret, Py_bind, Py_ret.
  destruct (h !!! dev) as [[j|] [r|] [t|] ty ix] eqn:Ho;
    destruct ty as [|b|n|s], ix as [|b'|n'|s']; simpl;
    repeat (progress (
      rewrite ?list_lookup_total_insert_eq by (by rewrite ?length_insert);
      rewrite ?list_insert_insert_eq;
      rewrite ?(read_after_write _job), ?(read_after_write _replica),
        ?(read_after_write _task), ?(read_after_write device_type),
        ?(read_after_write device_index) by reflexivity;
      rewrite ?Ho; simpl));
    first [ by destruct (h !!! self)
          | by rewrite insert_same by (done || by destruct (h !!! self)) ].
Qed.
End Merge.

(** C5, as the code has it: after [self.merge_from(dev)] each of the five
    fields of [self] is the field of [dev] where that one is present,
    taken as it is (the property setters leave a string and integers
    unchanged, and [device_type] and [device_index] are assigned without
    any normalisation), and the previous field of [self] where it is
    absent; no other object changes.  [dev] may be [self] itself. *)
Theorem merge_from_fields h self dev :
  self < length h ->
  exists h',
    Device.merge_from self dev h = (h', Return tt)
    /\ h' !!! self = overlay (h !!! self) (h !!! dev)
    /\ length h' = length h
    /\ (forall obj, obj <> self -> h' !!! obj = h !!! obj).
Proof.
  intros Hlt. eexists. split; [by apply merge_from_overlay|].
  rewrite length_insert, list_lookup_total_insert_eq by done.
  repeat split. intros obj Hne. by rewrite list_lookup_total_insert_ne.
Qed.

Lemma merge_from_fields_task3 :
  exists h',
    Device.merge_from 0 1
      [Fields (Some "w") (Some 1%Z) None VNone VNone;
       Fields None None (Some 3%Z) VNone VNone] = (h', Return tt)
    /\ h' !!! 0 = Fields (Some "w") (Some 1%Z) (Some 3%Z) VNone VNone
    /\ length h' = 2
    /\ (forall obj, obj <> 0 -> h' !!! obj =
          [Fields (Some "w") (Some 1%Z) None VNone VNone;
           Fields None None (Some 3%Z) VNone VNone] !!! obj).
Proof.
  apply (merge_from_fields
           [Fields (Some "w") (Some 1%Z) None VNone VNone;
            Fields None None (Some 3%Z) VNone VNone] 0 1).
  simpl. lia.
Defined.

(** C5 as stated fails: a lowercase ["cpu"], which the long form of the
    parser stores as it is, is merged as it is and not upper-cased. *)
Lemma merge_from_keeps_lowercase :
  from_string "/device:cpu:0" [blank] =
    ([blank; Fields None None None (VStr "cpu") (VInt 0)], Return 1)
  /\ Device.merge_from 0 1 [blank; Fields None None None (VStr "cpu") (VInt 0)] =
     ([Fields None None None (VStr "cpu") (VInt 0);
       Fields None None None (VStr "cpu") (VInt 0)], Return tt)
  /\ overlay_normalised blank (Fields None None None (VStr "cpu") (VInt 0)) =
     Fields None None None (VStr "CPU") (VInt 0)
  /\ device_type (Fields None None None (VStr "cpu") (VInt 0))
     <> device_type (overlay_normalised blank (Fields None None None (VStr "cpu") (VInt 0))).
Proof. repeat split; try reflexivity. discriminate. Qed.

(** ** One segment *)

Section Segment.
Import Device.
Implicit Types (h : heap) (self : loc) (spec : string) (y : list string).

Lemma short_form_not_keyed y key :
  short_form y = true -> Str.upper key <> "GPU" -> Str.upper key <> "CPU" ->
  String.eqb (item y 0) key = false.
Proof.
  unfold short_form. intros [_ Hk]%andb_true_iff Hg Hc.
  destruct (String.eqb_spec (item y 0) key) as [E|]; [|done].
  rewrite E in Hk.
  apply orb_true_iff in Hk as [Hk|Hk]; apply String.eqb_eq in Hk; congruence.
Qed.

(** The short device form on a live object. *)
Lemma parse_segment_short self spec y h :
  self < length h -> short_form y = true ->
  parse_segment self spec y h =
  if is_not_None (device_type (h !!! self)) then (h, Raise (MultipleDeviceTypes spec))
  else
    let d := with_device_type (VStr (Str.upper (item y 0))) (h !!! self) in
    if (length y =? 2) && negb (String.eqb (item y 1) "*") then
      match int (VStr (item y 1)) with
      | Return n => (<[self := with_device_index (VInt n) d]> h, Return tt)
      | Raise e => (<[self := d]> h, Raise e)
      end
    else (<[self := d]> h, Return tt).
Proof.
  intros Hlt Hs. unfold parse_segment. cbv zeta.
  rewrite (short_form_not_keyed y "job"), (short_form_not_keyed y "replica"),
    (short_form_not_keyed y "task") by done.
  rewrite !andb_false_r. fold (short_form y). rewrite Hs.
  assert ((length y =? 0) = false) as ->.
  { unfold short_form in Hs. by destruct y. }
  unfold getattr, setattr, raise, lift, mbind, mret, Py_bind, Py_ret; simpl.
  destruct (is_not_None (device_type (h !!! self))); simpl; [done|].
  destruct ((length y =? 2) && negb (String.eqb (item y 1) "*")); simpl; [|done].
  destruct (int_of_str (item y 1)); simpl; [|done].
  by rewrite list_lookup_total_insert_eq, list_insert_insert_eq.
Qed.

(** The long device form on a live object. *)
Lemma parse_segment_long self spec y h :
  self < length h -> long_form y = true ->
  parse_segment self spec y h =
  if is_not_None (device_type (h !!! self)) then (h, Raise (MultipleDeviceTypes spec))
  else
    let d := with_device_type (VStr (item y 1)) (h !!! self) in
    if negb (String.eqb (item y 2) "*") then
      match int (VStr (item y 2)) with
      | Return n => (<[self := with_device_index (VInt n) d]> h, Return tt)
      | Raise e => (<[self := d]> h, Raise e)
      end
    else (<[self := d]> h, Return tt).
Proof.
  intros Hlt Hl. unfold parse_segment. cbv zeta.
  unfold long_form in Hl. apply andb_true_iff in Hl as [Hn Hd].
  apply Nat.eqb_eq in Hn. rewrite Hn, Hd. simpl.
  unfold getattr, setattr, raise, lift, mbind, mret, Py_bind, Py_ret; simpl.
  destruct (is_not_None (device_type (h !!! self))); simpl; [done|].
  destruct (negb (String.eqb (item y 2) "*")); simpl; [|done].
  destruct (int_of_str (item y 2)); simpl; [|done].
  by rewrite list_lookup_total_insert_eq, list_insert_insert_eq.
Qed.

(** A segment of no recognised form: it raises when its first token is
    not empty and is skipped otherwise; the store is not touched. *)
Lemma parse_segment_unrecognised self spec y h :
  recognised y = false ->
  parse_segment self spec y h =
  if String.eqb (item y 0) "" then (h, Return tt)
  else (h, Raise (UnknownAttribute (item y 0) spec)).
Proof.
  unfold recognised, device_form, keyed, short_form, long_form, parse_segment.
  cbv zeta.
  intros Hr.
  repeat match goal with
         | H : _ || _ = false |- _ => apply orb_false_iff in H as [? ?]
         end.
  repeat match goal with H : _ = false |- _ => rewrite H; clear H end.
  destruct y as [|y0 y]; [done|]. simpl.
  by destruct (String.eqb (item (y0 :: y) 0) "").
Qed.

(** The three keyed forms. *)
Lemma parse_segment_job self spec y h :
  keyed "job" y = true -> parse_segment self spec y h = set_job self (VStr (item y 1)) h.
Proof.
  unfold keyed, parse_segment. cbv zeta. intros [Hn Hk]%andb_true_iff.
  apply Nat.eqb_eq in Hn. by rewrite Hn, Hk.
Qed.

Lemma parse_segment_replica self spec y h :
  keyed "replica" y = true ->
  parse_segment self spec y h = set_replica self (VStr (item y 1)) h.
Proof.
  unfold keyed, parse_segment. cbv zeta. intros [Hn Hk]%andb_true_iff.
  apply Nat.eqb_eq in Hn. apply String.eqb_eq in Hk. by rewrite Hn, Hk.
Qed.

Lemma parse_segment_task self spec y h :
  keyed "task" y = true ->
  parse_segment self spec y h = set_task self (VStr (item y 1)) h.
Proof.
  unfold keyed, parse_segment. cbv zeta. intros [Hn Hk]%andb_true_iff.
  apply Nat.eqb_eq in Hn. apply String.eqb_eq in Hk. by rewrite Hn, Hk.
Qed.
End Segment.

(** ** The loop over the segments *)

Section Loop.
Import Device.
Implicit Types (h : heap) (self : loc) (spec : string) (y : list string).

Lemma for_each_app {A} (l1 l2 : list A) (body : A -> Py unit) h :
  for_each (l1 ++ l2) body h =
  match for_each l1 body h with
  | (h1, Return _) => for_each l2 body h1
  | (h1, Raise e) => (h1, Raise e)
  end.
Proof.
  revert h. induction l1 as [|x l1 IH]; intros h; simpl; [done|].
  unfold mbind, Py_bind. destruct (body x h) as [h1 [[]|e]]; [apply IH|done].
Qed.

Lemma for_each_cons_raise {A} (x : A) (l : list A) (body : A -> Py unit) h h1 e :
  body x h = (h1, Raise e) -> for_each (x :: l) body h = (h1, Raise e).
Proof. intros Hx. simpl. unfold mbind, Py_bind. by rewrite Hx. Qed.

(** [from_string] is the loop run on a fresh cleared object. *)
Lemma from_string_loop spec h :
  from_string spec h =
  ((parse_loop spec (length h) (h ++ [blank])).1,
   lift_loc (length h) (parse_loop spec (length h) (h ++ [blank])).2).
Proof.
  rewrite from_string_focus.
  by rewrite (local_fresh _ h blank (local_parse_loop spec)).
Qed.

Lemma keyed_not_device key y :
  keyed key y = true -> Str.upper key <> "GPU" -> Str.upper key <> "CPU" ->
  device_form y = false.
Proof.
  unfold keyed, device_form, short_form, long_form.
  intros [Hn Hk]%andb_true_iff Hg Hc.
  apply Nat.eqb_eq in Hn. apply String.eqb_eq in Hk. rewrite Hn, Hk. simpl.
  destruct (String.eqb_spec (Str.upper key) "GPU"); [done|].
  by destruct (String.eqb_spec (Str.upper key) "CPU").
Qed.

(** A segment processed without error keeps the store's size; when it
    specifies a device kind, the kind was absent before and is present
    after, and otherwise [device_type] is not touched. *)
Lemma parse_segment_ok self spec y h h' :
  self < length h ->
  parse_segment self spec y h = (h', Return tt) ->
  length h' = length h
  /\ if device_form y then
       is_not_None (device_type (h !!! self)) = false
       /\ is_not_None (device_type (h' !!! self)) = true
     else device_type (h' !!! self) = device_type (h !!! self).
Proof.
  intros Hlt.
  destruct (keyed "job" y) eqn:Kj;
    [|destruct (keyed "replica" y) eqn:Kr;
      [|destruct (keyed "task" y) eqn:Kt]].
  - rewrite parse_segment_job, (keyed_not_device "job") by done.
    unfold set_job, setattr; simpl. intros [= <-].
    by rewrite length_insert, list_lookup_total_insert_eq.
  - rewrite parse_segment_replica, (keyed_not_device "replica") by done.
    unfold set_replica, setattr, lift, mbind, Py_bind; simpl.
    destruct (int_of_str (item y 1)); [|done]. intros [= <-].
    by rewrite length_insert, list_lookup_total_insert_eq.
  - rewrite parse_segment_task, (keyed_not_device "task") by done.
    unfold set_task, setattr, lift, mbind, Py_bind; simpl.
    destruct (int_of_str (item y 1)); [|done]. intros [= <-].
    by rewrite length_insert, list_lookup_total_insert_eq.
  - destruct (device_form y) eqn:Df.
    + unfold device_form in Df.
      destruct (short_form y) eqn:Sf;
        [rewrite parse_segment_short by done
        |rewrite parse_segment_long by done].
      * destruct (is_not_None (device_type (h !!! self))); [done|]. cbv zeta.
        destruct ((length y =? 2) && negb (String.eqb (item y 1) "*"));
          [destruct (int (VStr (item y 1))); [|done]|];
          intros [= <-];
          by rewrite length_insert, list_lookup_total_insert_eq.
      * destruct (is_not_None (device_type (h !!! self))); [done|]. cbv zeta.
        destruct (negb (String.eqb (item y 2) "*"));
          [destruct (int (VStr (item y 2))); [|done]|];
          intros [= <-];
          by rewrite length_insert, list_lookup_total_insert_eq.
    + rewrite parse_segment_unrecognised
        by (unfold recognised; by rewrite Kj, Kr, Kt, Df).
      destruct (String.eqb (item y 0) ""); [|done]. by intros [= <-].
Qed.

(** A device-kind segment met when a kind is already set. *)
Lemma parse_segment_duplicate self spec y h :
  self < length h -> device_form y = true ->
  is_not_None (device_type (h !!! self)) = true ->
  parse_segment self spec y h = (h, Raise (MultipleDeviceTypes spec)).
Proof.
  intros Hlt Df Hset. unfold device_form in Df.
  destruct (short_form y) eqn:Sf;
    [rewrite parse_segment_short by done|rewrite parse_segment_long by done];
    by rewrite Hset.
Qed.

(** Segments processed without error never unset the device kind. *)
Lemma for_each_ok self spec (l : list (list string)) h h' :
  self < length h ->
  for_each l (parse_segment self spec) h = (h', Return tt) ->
  length h' = length h
  /\ (is_not_None (device_type (h !!! self)) = true ->
      is_not_None (device_type (h' !!! self)) = true).
Proof.
  revert h. induction l as [|y l IH]; intros h Hlt; simpl.
  - by intros [= <-].
  - unfold mbind, Py_bind.
    destruct (parse_segment self spec y h) as [h1 [[]|e]] eqn:Hy; [|done].
    destruct (parse_segment_ok _ _ _ _ _ Hlt Hy) as [Hlen Hty].
    intros Hl. assert (self < length h1) as Hlt1 by lia.
    destruct (IH h1 Hlt1 Hl) as [Hlen' Hset].
    split; [lia|]. intros Hbefore. apply Hset.
    destruct (device_form y); [by destruct Hty|by rewrite Hty].
Qed.

(** The loop raises as soon as one of its segments always raises. *)
Lemma for_each_raises {A} (l : list A) (body : A -> Py unit) x :
  x ∈ l -> (forall h, exists e, (body x h).2 = Raise e) ->
  forall h, exists e, (for_each l body h).2 = Raise e.
Proof.
  intros Hin Hx. induction l as [|z l IH]; [by apply elem_of_nil in Hin|].
  intros h. simpl. unfold mbind, Py_bind.
  apply elem_of_cons in Hin as [<-|Hin].
  - destruct (Hx h) as [e He]. destruct (body x h) as [h1 [[]|e']]; [done|eauto].
  - destruct (body z h) as [h1 [[]|e']]; [by apply IH|eauto].
Qed.
(** A loop that raises does so at a first segment: the segments before
    it were processed without error, and its error and store are those
    of the loop. *)
Lemma for_each_first_failure {A} (l : list A) (body : A -> Py unit) h h1 e :
  for_each l body h = (h1, Raise e) ->
  exists before x after h0,
    l = before ++ x :: after
    /\ for_each before body h = (h0, Return tt)
    /\ body x h0 = (h1, Raise e).
Proof.
  revert h. induction l as [|x l IH]; intros h; simpl; [done|].
  unfold mbind, Py_bind.
  destruct (body x h) as [h' [[]|e']] eqn:Hx.
  - intros Hrest. destruct (IH h' Hrest) as (before & z & after & h0 & -> & Hb & Hz).
    exists (x :: before), z, after, h0. split; [done|]. split; [|done].
    simpl. unfold mbind, Py_bind. by rewrite Hx.
  - intros [= <- <-]. by exists [], x, l, h.
Qed.

(** The loop stops at the first segment that raises. *)
Lemma for_each_stops {A} (before after : list A) x (body : A -> Py unit) h h0 h1 e :
  for_each before body h = (h0, Return tt) ->
  body x h0 = (h1, Raise e) ->
  for_each (before ++ x :: after) body h = (h1, Raise e).
Proof.
  intros Hb Hx. rewrite for_each_app, Hb. by apply for_each_cons_raise.
Qed.

End Loop.

(** ** Errors of the parser *)

(** C3, as the code has it: a segment of no recognised form raises
    [UnknownAttribute], with its first token and the whole input, when
    its first token is not empty; when its first token is empty (the
    empty segment, or one such as [:x]) it is skipped.  The parse of a
    string that holds a segment of the first kind fails, and fails with
    that segment's [UnknownAttribute] when the segments before it were
    processed without error. *)
Theorem unknown_attribute_raised spec pre y post h :
  splits spec = pre ++ y :: post ->
  recognised y = false ->
  (item y 0 = "" ->
   forall self h', Device.parse_segment self spec y h' = (h', Return tt))
  /\ (item y 0 <> "" ->
      (forall self h',
         Device.parse_segment self spec y h' =
         (h', Raise (UnknownAttribute (item y 0) spec)))
      /\ (exists e, (from_string spec h).2 = Raise e)
      /\ (forall h1,
            for_each pre (Device.parse_segment (length h) spec) (h ++ [blank])
            = (h1, Return tt) ->
            from_string spec h = (h1, Raise (UnknownAttribute (item y 0) spec)))).
Proof.
  intros Hsplit Hr. split.
  - intros Hy self h'. rewrite parse_segment_unrecognised by done.
    by rewrite Hy.
  - intros Hy.
    assert (forall self h', Device.parse_segment self spec y h' =
                            (h', Raise (UnknownAttribute (item y 0) spec))) as Hraise.
    { intros self h'. rewrite parse_segment_unrecognised by done.
      by destruct (String.eqb_spec (item y 0) ""). }
    split; [done|]. split.
    + rewrite from_string_loop; unfold parse_loop; simpl.
      destruct (for_each_raises (splits spec)
                  (Device.parse_segment (length h) spec) y) with (h := h ++ [blank])
        as [e He].
      * rewrite Hsplit. apply elem_of_app. right. apply elem_of_cons. by left.
      * intros h'. rewrite Hraise. eauto.
      * rewrite He. eauto.
    + intros h1 Hpre. rewrite from_string_loop. unfold parse_loop.
      rewrite Hsplit, for_each_app, Hpre.
      by rewrite (for_each_cons_raise _ _ _ _ _ _ (Hraise _ _)).
Qed.

Lemma unknown_attribute_bogus :
  from_string "/bogus:x" [] = ([blank], Raise (UnknownAttribute "bogus" "/bogus:x")).
Proof.
  refine (proj2 (proj2 (proj2
            (unknown_attribute_raised "/bogus:x" [[""]] ["bogus"; "x"] [] []
               eq_refl eq_refl) _)) [blank] eq_refl).
  simpl. discriminate.
Defined.

(** C3 as stated fails: the segment [:x] is not empty and has none of
    the recognised forms, and the parse skips it without raising. *)
Lemma empty_first_token_skipped :
  splits "/:x" = [[""]; [""; "x"]]
  /\ recognised [""; "x"] = false
  /\ from_string "/:x" [] = ([blank], Return 0).
Proof. repeat split; reflexivity. Qed.

(** C6, as the code has it: the parse of a string in which two segments
    specify a device kind (short or long form, in any order) fails; it
    fails with [MultipleDeviceTypes], raised at the second of the two,
    when the segments before that one were processed without error, and
    with the error of the first failing segment otherwise. *)
Theorem duplicate_device_type spec pre y1 mid y2 post h :
  splits spec = pre ++ y1 :: mid ++ y2 :: post ->
  device_form y1 = true ->
  device_form y2 = true ->
  (exists e, (from_string spec h).2 = Raise e)
  /\ (forall h1,
        for_each (pre ++ y1 :: mid) (Device.parse_segment (length h) spec)
          (h ++ [blank]) = (h1, Return tt) ->
        from_string spec h = (h1, Raise (MultipleDeviceTypes spec)))
  /\ (forall before y after h0 h1 e,
        pre ++ y1 :: mid = before ++ y :: after ->
        for_each before (Device.parse_segment (length h) spec) (h ++ [blank])
          = (h0, Return tt) ->
        Device.parse_segment (length h) spec y h0 = (h1, Raise e) ->
        from_string spec h = (h1, Raise e))
  /\ ((exists h1,
         for_each (pre ++ y1 :: mid) (Device.parse_segment (length h) spec)
           (h ++ [blank]) = (h1, Return tt))
      \/ (exists before y after h0 h1 e,
            pre ++ y1 :: mid = before ++ y :: after
            /\ for_each before (Device.parse_segment (length h) spec) (h ++ [blank])
               = (h0, Return tt)
            /\ Device.parse_segment (length h) spec y h0 = (h1, Raise e))).
Proof.
  intros Hsplit Hy1 Hy2.
  assert (length h < length (h ++ [blank])) as Hlt
    by (rewrite length_app; simpl; lia).
  assert (splits spec = (pre ++ y1 :: mid) ++ y2 :: post) as Hsplit'
    by (by rewrite Hsplit, <- app_assoc).
  assert (forall h1,
    for_each (pre ++ y1 :: mid) (Device.parse_segment (length h) spec)
      (h ++ [blank]) = (h1, Return tt) ->
    from_string spec h = (h1, Raise (MultipleDeviceTypes spec))) as Hdup.
  { intros h1 Hfirst.
    rewrite from_string_loop. unfold parse_loop.
    rewrite Hsplit', for_each_app, Hfirst.
    rewrite for_each_app in Hfirst.
    destruct (for_each pre _ _) as [ha [[]|e]] eqn:Hpre; [|done].
    destruct (for_each_ok _ _ _ _ _ Hlt Hpre) as [Hla _].
    simpl in Hfirst. unfold mbind, Py_bind in Hfirst.
    destruct (Device.parse_segment _ _ y1 ha) as [hb [[]|e]] eqn:Hstep; [|done].
    assert (length h < length ha) as Hlta by lia.
    destruct (parse_segment_ok _ _ _ _ _ Hlta Hstep) as [Hlb Hty].
    rewrite Hy1 in Hty. destruct Hty as [_ Hset].
    assert (length h < length hb) as Hltb by lia.
    destruct (for_each_ok _ _ _ _ _ Hltb Hfirst) as [Hl1 Hkeep].
    rewrite (for_each_cons_raise _ _ _ _ h1 (MultipleDeviceTypes spec)); [done|].
    apply parse_segment_duplicate; [lia|done|auto]. }
  assert (forall before y after h0 h1 e,
    pre ++ y1 :: mid = before ++ y :: after ->
    for_each before (Device.parse_segment (length h) spec) (h ++ [blank])
      = (h0, Return tt) ->
    Device.parse_segment (length h) spec y h0 = (h1, Raise e) ->
    from_string spec h = (h1, Raise e)) as Hearlier.
  { intros before y after h0 h1 e Hcut Hbefore Hy.
    rewrite from_string_loop. unfold parse_loop.
    rewrite Hsplit', Hcut, <- app_assoc. simpl.
    by rewrite (for_each_stops before (after ++ y2 :: post) y _ _ h0 h1 e). }
  destruct (for_each (pre ++ y1 :: mid) (Device.parse_segment (length h) spec)
              (h ++ [blank])) as [h1 [[]|e]] eqn:Hfirst.
  - split; [rewrite (Hdup h1) by done; eauto|].
    split; [done|]. split; [done|]. left. eauto.
  - destruct (for_each_first_failure _ _ _ _ _ Hfirst)
      as (before & y & after & h0 & Hcut & Hbefore & Hy).
    split; [rewrite (Hearlier _ _ _ _ _ _ Hcut Hbefore Hy); eauto|].
    split; [done|]. split; [done|]. right.
    exists before, y, after, h0, h1, e. done.
Qed.

Lemma duplicate_device_type_long_long :
  (exists e, (from_string "/device:CPU:0/device:GPU:1" []).2 = Raise e)
  /\ from_string "/device:CPU:0/device:GPU:1" [] =
     ([Fields None None None (VStr "CPU") (VInt 0)],
      Raise (MultipleDeviceTypes "/device:CPU:0/device:GPU:1")).
Proof.
  destruct (duplicate_device_type "/device:CPU:0/device:GPU:1"
              [[""]] ["device"; "CPU"; "0"] [] ["device"; "GPU"; "1"] [] []
              eq_refl eq_refl eq_refl) as (Hfails & Hdup & _).
  split; [exact Hfails|].
  exact (Hdup [Fields None None None (VStr "CPU") (VInt 0)] eq_refl).
Defined.

(** C6 as stated fails: with two device-kind segments of which the first
    has an unreadable index, the error is the one of [int], raised before
    the second segment is looked at. *)
Lemma duplicate_hidden_by_earlier_error :
  splits "/cpu:x/gpu:0" = [[""]; ["cpu"; "x"]; ["gpu"; "0"]]
  /\ device_form ["cpu"; "x"] = true
  /\ device_form ["gpu"; "0"] = true
  /\ from_string "/cpu:x/gpu:0" [] =
     ([Fields None None None (VStr "CPU") VNone], Raise (InvalidLiteral "x")).
Proof. repeat split; reflexivity. Qed.

Example duplicate_short_short :
  from_string "/cpu:0/gpu:1" [] =
  ([Fields None None None (VStr "CPU") (VInt 0)],
   Raise (MultipleDeviceTypes "/cpu:0/gpu:1")).
Proof. reflexivity. Qed.

Example duplicate_short_long :
  from_string "/GPU/job:w/device:GPU:*" [] =
  ([Fields (Some "w") None None (VStr "GPU") VNone],
   Raise (MultipleDeviceTypes "/GPU/job:w/device:GPU:*")).
Proof. reflexivity. Qed.

Example duplicate_long_short :
  from_string "/device:tpu:1/cpu" [] =
  ([Fields None None None (VStr "tpu") (VInt 1)],
   Raise (MultipleDeviceTypes "/device:tpu:1/cpu")).
Proof. reflexivity. Qed.

(** ** The case of the device kind *)

Lemma normalise_type_cases :
  normalise_type (VStr "cpu") = VStr "CPU"
  /\ normalise_type (VStr "gpu") = VStr "GPU"
  /\ (forall ty, ty <> VStr "cpu" -> ty <> VStr "gpu" -> normalise_type ty = ty).
Proof.
  repeat split. intros ty Hc Hg. unfold normalise_type, eq_str.
  destruct ty as [| | |s]; try done.
  destruct (String.eqb_spec s "cpu") as [->|]; [done|].
  by destruct (String.eqb_spec s "gpu") as [->|].
Qed.

(** C8: a short-form segment whose first token is [CPU] or [GPU] in any
    case is taken as a device kind (it raises for a second kind or an
    unreadable index only, never as an unknown attribute) and stores the
    upper-cased token; the long form stores its second token as it is;
    the constructor upper-cases exactly ["cpu"] and ["gpu"] and stores
    any other value as it is. *)
Theorem device_kind_case :
  (forall self spec y h,
     self < length h -> short_form y = true ->
     Device.parse_segment self spec y h =
     if is_not_None (device_type (h !!! self)) then
       (h, Raise (MultipleDeviceTypes spec))
     else if (length y =? 2) && negb (String.eqb (item y 1) "*") then
       match int (VStr (item y 1)) with
       | Return n =>
           (<[self := with_device_index (VInt n)
                        (with_device_type (VStr (Str.upper (item y 0))) (h !!! self))]> h,
            Return tt)
       | Raise e =>
           (<[self := with_device_type (VStr (Str.upper (item y 0))) (h !!! self)]> h,
            Raise e)
       end
     else
       (<[self := with_device_type (VStr (Str.upper (item y 0))) (h !!! self)]> h,
        Return tt))
  /\ (forall self spec y h,
        self < length h -> long_form y = true ->
        Device.parse_segment self spec y h =
        if is_not_None (device_type (h !!! self)) then
          (h, Raise (MultipleDeviceTypes spec))
        else if negb (String.eqb (item y 2) "*") then
          match int (VStr (item y 2)) with
          | Return n =>
              (<[self := with_device_index (VInt n)
                           (with_device_type (VStr (item y 1)) (h !!! self))]> h,
               Return tt)
          | Raise e =>
              (<[self := with_device_type (VStr (item y 1)) (h !!! self)]> h, Raise e)
          end
        else (<[self := with_device_type (VStr (item y 1)) (h !!! self)]> h, Return tt))
  /\ from_string "/cpu:0" [] = ([Fields None None None (VStr "CPU") (VInt 0)], Return 0)
  /\ from_string "/device:tpu:0" [] =
     ([Fields None None None (VStr "tpu") (VInt 0)], Return 0)
  /\ (forall job replica task ty ix h h' self,
        Device.new job replica task ty ix h = (h', Return self) ->
        device_type (h' !!! self) = normalise_type ty)
  /\ normalise_type (VStr "cpu") = VStr "CPU"
  /\ normalise_type (VStr "gpu") = VStr "GPU"
  /\ (forall ty, ty <> VStr "cpu" -> ty <> VStr "gpu" -> normalise_type ty = ty).
Proof.
  split; [|split; [|split; [|split; [|split]]]].
  - intros self spec y h Hlt Hs. by rewrite parse_segment_short.
  - intros self spec y h Hlt Hl. by rewrite parse_segment_long.
  - reflexivity.
  - reflexivity.
  - intros job replica task ty ix h h' self.
    unfold Device.new, new_object, mbind, Py_bind.
    rewrite (local_fresh _ h blank (local_init job replica task ty ix)), focus_init.
    destruct (coerce_int replica), (coerce_int task); try done.
    intros [= <- <-]. by rewrite lookup_fresh.
  - apply normalise_type_cases.
Qed.

Lemma device_kind_case_mixed :
  Device.parse_segment 0 "/gPu:3" ["gPu"; "3"] [blank] =
  ([Fields None None None (VStr "GPU") (VInt 3)], Return tt).
Proof.
  refine (proj1 device_kind_case 0 "/gPu:3" ["gPu"; "3"] [blank] _ eq_refl).
  simpl. lia.
Defined.

Example long_form_keeps_case :
  from_string "/device:Cpu:*" [] = ([Fields None None None (VStr "Cpu") VNone], Return 0).
Proof. reflexivity. Qed.

Example short_form_three_tokens :
  from_string "/cpu:0:1" [] = ([blank], Raise (UnknownAttribute "cpu" "/cpu:0:1")).
Proof. reflexivity. Qed.

(** ** Round trip *)

Section RoundTrip.
Import Device.
Implicit Types (h : heap) (d : fields) (s : string).

Lemma canonical_join d : canonical d = join (bodies d).
Proof.
  unfold canonical, bodies, job_segment, replica_segment, task_segment,
    device_segment, job_body, replica_body, task_body, device_body.
  destruct d as [[j|] [r|] [t|] ty ix]; simpl; destruct ty; simpl;
    repeat (progress (rewrite ?append_assoc, ?append_nil_r; simpl)); reflexivity.
Qed.

Lemma split_join (bs : list string) :
  Forall (fun b => Str.lacks "/" b = true) bs ->
  Str.split "/" (join bs) = "" :: bs.
Proof.
  induction 1 as [|b bs Hb Hbs IH]; [done|].
  change (join (b :: bs)) with (String "/" (b +:+ join bs)).
  change (Str.split "/" (String "/" (b +:+ join bs)))
    with ("" :: Str.split "/" (b +:+ join bs)).
  f_equal. destruct bs as [|b' bs].
  - simpl. rewrite append_nil_r. by apply split_none.
  - change (join (b' :: bs)) with (String "/" (b' +:+ join bs)).
    rewrite split_app by done.
    change (String "/" (b' +:+ join bs)) with (join (b' :: bs)) in IH.
    change (Str.split "/" (join (b' :: bs)))
      with ("" :: Str.split "/" (b' +:+ join bs)) in IH.
    by injection IH as ->.
Qed.

Lemma split_keyed key s :
  Str.lacks ":" key = true -> Str.lacks ":" s = true ->
  Str.split ":" (key +:+ String ":" s) = [key; s].
Proof. intros Hk Hs. by rewrite split_app, split_none. Qed.

Lemma split_device kind ix :
  Str.lacks ":" kind = true -> Str.lacks ":" ix = true ->
  Str.split ":" ("device:" +:+ kind +:+ ":" +:+ ix) = ["device"; kind; ix].
Proof.
  intros Hk Hi.
  change ("device:" +:+ kind +:+ ":" +:+ ix)
    with ("device" +:+ String ":" (kind +:+ String ":" ix)).
  by rewrite split_app, split_app, split_none.
Qed.

Lemma kind_lacks sep kind :
  Str.is_alpha sep || Str.is_digit sep = false ->
  String.eqb kind "CPU" || String.eqb kind "GPU" || Str.isalnum kind = true ->
  Str.lacks sep kind = true.
Proof.
  intros Hsep Hk. apply alnum_lacks; [done|].
  apply orb_true_iff in Hk as [Hk|Hk]; [|done].
  by apply orb_true_iff in Hk as [->%String.eqb_eq| ->%String.eqb_eq].
Qed.

(** What [constrained] says, field by field. *)
Lemma constrained_fields d :
  constrained d = true ->
  (forall j, _job d = Some j -> Str.lacks "/" j = true /\ Str.lacks ":" j = true)
  /\ (forall r, _replica d = Some r -> (0 <= r)%Z)
  /\ (forall t, _task d = Some t -> (0 <= t)%Z)
  /\ (device_type d = VNone \/
      exists kind, device_type d = VStr kind
                   /\ Str.lacks "/" kind = true /\ Str.lacks ":" kind = true)
  /\ (device_index d = VNone \/ exists n, device_index d = VInt n /\ (0 <= n)%Z).
Proof.
  unfold constrained, constrained_int.
  destruct d as [j r t ty ix]; simpl.
  intros Hc. repeat (apply andb_true_iff in Hc as [Hc ?]).
  split; [|split; [|split; [|split]]].
  - intros ? ->. by apply no_separator_lacks.
  - intros ? ->. by apply Z.leb_le.
  - intros ? ->. by apply Z.leb_le.
  - destruct ty as [| | |kind]; try done; [by left|right].
    exists kind. by repeat split; apply kind_lacks.
  - destruct ix as [| |n|]; try done; [by left|right].
    exists n. split; [done|by apply Z.leb_le].
Qed.

Lemma index_or_star_lacks sep d :
  Str.is_digit sep = false -> sep <> "*"%char ->
  (device_index d = VNone \/ exists n, device_index d = VInt n /\ (0 <= n)%Z) ->
  Str.lacks sep (index_or_star d) = true.
Proof.
  intros Hsep Hstar [Hix|(n & Hix & Hn)]; unfold index_or_star; rewrite Hix.
  - change (negb (Ascii.eqb "*" sep) && true = true).
    destruct (Ascii.eqb_spec "*" sep); [congruence|done].
  - apply digit_lacks; [done|]. by apply str_of_Z_digits.
Qed.

Lemma bodies_lack_slash d :
  constrained d = true -> Forall (fun b => Str.lacks "/" b = true) (bodies d).
Proof.
  intros (Hj & Hr & Ht & Hty & Hix)%constrained_fields.
  unfold bodies, job_body, replica_body, task_body, device_body.
  repeat apply Forall_app_2.
  - destruct (_job d) as [j|]; [|done]. apply Forall_singleton.
    rewrite lacks_app. by destruct (Hj j eq_refl) as [-> _]; reflexivity.
  - destruct (_replica d) as [r|]; [|done]. apply Forall_singleton.
    rewrite lacks_app, (digit_lacks "/" (str_of_Z r)); [reflexivity..|].
    by apply str_of_Z_digits, Hr.
  - destruct (_task d) as [t|]; [|done]. apply Forall_singleton.
    rewrite lacks_app, (digit_lacks "/" (str_of_Z t)); [reflexivity..|].
    by apply str_of_Z_digits, Ht.
  - destruct Hty as [->|(kind & -> & Hk & _)]; [done|]. apply Forall_singleton.
    rewrite !lacks_app. simpl str. rewrite Hk.
    by rewrite (index_or_star_lacks "/" d).
Qed.

(** The tokens of each segment of the canonical string. *)
Lemma tokens_bodies d :
  constrained d = true ->
  map (Str.split ":") (bodies d) =
  match _job d with Some j => [["job"; j]] | None => [] end
  ++ match _replica d with Some r => [["replica"; str_of_Z r]] | None => [] end
  ++ match _task d with Some t => [["task"; str_of_Z t]] | None => [] end
  ++ match device_type d with
     | VNone => []
     | ty => [["device"; str ty; index_or_star d]]
     end.
Proof.
  intros (Hj & Hr & Ht & Hty & Hix)%constrained_fields.
  unfold bodies, job_body, replica_body, task_body, device_body.
  rewrite !map_app. repeat f_equal.
  - destruct (_job d) as [j|]; [|done]. cbn [map].
    change ("job:" +:+ j) with ("job" +:+ String ":" j).
    rewrite split_keyed; [reflexivity..|]. by destruct (Hj j eq_refl).
  - destruct (_replica d) as [r|]; [|done]. cbn [map].
    change ("replica:" +:+ str_of_Z r) with ("replica" +:+ String ":" (str_of_Z r)).
    rewrite split_keyed; [reflexivity..|].
    apply digit_lacks; [reflexivity|]. by apply str_of_Z_digits, Hr.
  - destruct (_task d) as [t|]; [|done]. cbn [map].
    change ("task:" +:+ str_of_Z t) with ("task" +:+ String ":" (str_of_Z t)).
    rewrite split_keyed; [reflexivity..|].
    apply digit_lacks; [reflexivity|]. by apply str_of_Z_digits, Ht.
  - destruct Hty as [->|(kind & -> & _ & Hk)]; [done|]. cbn [map str].
    rewrite split_device; [done..|]. by apply index_or_star_lacks.
Qed.

(** Parsing the canonical string of a constrained, coupled record from
    a cleared object gives the record back. *)
Lemma parse_loop_canonical d :
  constrained d = true -> coupled d = true ->
  parse_loop (canonical d) 0 [blank] = ([d], Return tt).
Proof.
  intros Hc Hcoupled. unfold parse_loop, splits.
  rewrite canonical_join, split_join by (by apply bodies_lack_slash).
  cbn [map]. rewrite tokens_bodies by done.
  generalize (join (bodies d)). intros spec.
  apply constrained_fields in Hc as (Hj & Hr & Ht & Hty & Hix).
  unfold index_or_star, coupled in *.
  destruct d as [j r t ty ix]; simpl in *.
  pose proof (fun n => int_of_str_of_Z n) as Hint.
  pose proof (fun n => str_of_Z_not_star n) as Hstar.
  destruct Hty as [->|(kind & -> & _)], Hix as [->|(n & -> & Hn)];
    try discriminate Hcoupled;
    destruct j as [j|], r as [r|], t as [t|];
    try specialize (Hr r eq_refl); try specialize (Ht t eq_refl);
    repeat (progress (
      cbn -[int_of_str str_of_Z];
      unfold set_job, set_replica, set_task, getattr, setattr, raise, lift,
        mbind, mret, Py_bind, Py_ret, int;
      rewrite ?Hint, ?Hstar by assumption));
    reflexivity.
Qed.
End RoundTrip.

(** C1, as the code has it: for a spec whose fields are in the
    constrained grammar and whose [device_index], when present, comes
    with a [device_type], parsing the string that [to_string] returns
    yields a new spec with the same five fields. *)
Theorem round_trip h self :
  constrained (h !!! self) = true ->
  coupled (h !!! self) = true ->
  exists s,
    Device.to_string self h = (h, Return s)
    /\ from_string s h = (h ++ [h !!! self], Return (length h)).
Proof.
  intros Hc Hcoupled. exists (canonical (h !!! self)).
  split; [apply to_string_canonical|].
  rewrite from_string_focus. unfold focus.
  by rewrite parse_loop_canonical.
Qed.

Lemma round_trip_worker :
  exists s,
    Device.to_string 0 [Fields (Some "worker") (Some 2%Z) None (VStr "GPU") (VInt 0)]
      = ([Fields (Some "worker") (Some 2%Z) None (VStr "GPU") (VInt 0)], Return s)
    /\ from_string s [Fields (Some "worker") (Some 2%Z) None (VStr "GPU") (VInt 0)]
       = ([Fields (Some "worker") (Some 2%Z) None (VStr "GPU") (VInt 0);
           Fields (Some "worker") (Some 2%Z) None (VStr "GPU") (VInt 0)], Return 1).
Proof.
  apply (round_trip [Fields (Some "worker") (Some 2%Z) None (VStr "GPU") (VInt 0)] 0);
    reflexivity.
Defined.

(** C1 as stated fails: a spec with a [device_index] and no
    [device_type] is in the constrained grammar, serialises to the empty
    string, and parses back without its index. *)
Lemma round_trip_loses_lone_index :
  constrained (Fields None None None VNone (VInt 0)) = true
  /\ Device.to_string 0 [Fields None None None VNone (VInt 0)] =
     ([Fields None None None VNone (VInt 0)], Return "")
  /\ from_string "" [Fields None None None VNone (VInt 0)] =
     ([Fields None None None VNone (VInt 0); blank], Return 1)
  /\ device_index blank <> device_index (Fields None None None VNone (VInt 0)).
Proof. repeat split; try reflexivity. discriminate. Qed.

Example round_trip_wildcard :
  (self ← from_string "/device:GPU:*"; Device.to_string self) [] =
  ([Fields None None None (VStr "GPU") VNone], Return "/device:GPU:*").
Proof. reflexivity. Qed.

Example round_trip_empty :
  (self ← from_string ""; Device.to_string self) [] = ([blank], Return "").
Proof. reflexivity. Qed.

(** ** Scoped merging *)

Section MergeDevice.
Implicit Types (h : heap) (spec : loc) (node : NodeDef).

(** One call of the function [merge_device] returns: the candidate is
    parsed into a new object, the captured spec is copied into another
    one, and the candidate is merged into the copy. *)
Lemma device_function_outcome spec node h :
  spec < length h ->
  _device_function spec node h =
  match from_string (or_empty (device node)) [] with
  | (hc, Return _) =>
      (h ++ hc ++ [overlay (h !!! spec) (hc !!! 0)], Return (S (length h)))
  | (hc, Raise e) => (h ++ hc, Raise e)
  end.
Proof.
  intros Hlt. unfold _device_function, copy_copy, mbind, mret, Py_bind, Py_ret.
  rewrite (from_string_focus _ h), (from_string_focus _ []).
  destruct (focus (parse_loop (or_empty (device node))) blank) as [dc [[]|e]];
    simpl; [|done].
  rewrite merge_from_overlay by (rewrite !length_app; simpl; lia).
  rewrite length_app; simpl.
  replace (length h + 1) with (length (h ++ [dc])) by (rewrite length_app; simpl; lia).
  rewrite lookup_fresh, insert_fresh.
  rewrite (lookup_old (h ++ [dc])) by (rewrite length_app; simpl; lia).
  rewrite lookup_fresh, lookup_old by done.
  rewrite <- app_assoc. simpl. f_equal. f_equal. rewrite length_app. simpl. lia.
Qed.

Lemma merge_device_outcome arg h :
  merge_device arg h =
  match arg with
  | SpecDevice d => (h, Return (_device_function d))
  | SpecStr s =>
      match from_string (or_empty s) [] with
      | (hs, Return _) => (h ++ hs, Return (_device_function (length h)))
      | (hs, Raise e) => (h ++ hs, Raise e)
      end
  end.
Proof.
  unfold merge_device, mbind, mret, Py_bind, Py_ret. destruct arg as [d|s]; [done|].
  rewrite (from_string_focus _ h), (from_string_focus _ []).
  by destruct (focus (parse_loop (or_empty s)) blank) as [ds [[]|e]].
Qed.
End MergeDevice.

(** C2: the function returned by [merge_device(s)], applied to a node
    whose device string is [c], returns a new spec holding the fields of
    the parse of [s] overwritten by those fields of the parse of [c] that
    are present.  On the nested example, each level, resolved against
    what the enclosing levels resolved to, gives the documented
    strings. *)
Theorem merge_device_candidate_wins :
  (forall s c ds dc h,
     from_string (or_empty s) [] = ([ds], Return 0) ->
     from_string (or_empty c) [] = ([dc], Return 0) ->
     exists f,
       merge_device (SpecStr s) h = (h ++ [ds], Return f)
       /\ f {| device := c |} (h ++ [ds]) =
          (h ++ [ds; dc; overlay ds dc], Return (length h + 2)))
  /\ (resolve "/job:worker" "/device:GPU:0" []).2 = Return "/job:worker/device:GPU:0"
  /\ (resolve "/job:worker/device:GPU:0" "/device:CPU:0" []).2
     = Return "/job:worker/device:CPU:0"
  /\ (resolve "/job:worker/device:CPU:0" "/job:ps" []).2
     = Return "/job:ps/device:CPU:0".
Proof.
  split; [|by repeat split].
  intros s c ds dc h Hs Hc. eexists. split.
  - by rewrite merge_device_outcome, Hs.
  - rewrite device_function_outcome by (rewrite length_app; simpl; lia).
    simpl device. rewrite Hc, lookup_fresh. simpl.
    rewrite <- app_assoc. simpl. do 2 f_equal. rewrite length_app. simpl. lia.
Qed.

Lemma merge_device_worker_gpu :
  exists f,
    merge_device (SpecStr (Some "/job:worker")) [] =
      ([] ++ [Fields (Some "worker") None None VNone VNone], Return f)
    /\ f {| device := Some "/device:GPU:0" |}
         ([] ++ [Fields (Some "worker") None None VNone VNone]) =
       ([] ++ [Fields (Some "worker") None None VNone VNone;
               Fields None None None (VStr "GPU") (VInt 0);
               overlay (Fields (Some "worker") None None VNone VNone)
                       (Fields None None None (VStr "GPU") (VInt 0))],
        Return (length ([] : heap) + 2)).
Proof.
  exact (proj1 merge_device_candidate_wins
           (Some "/job:worker") (Some "/device:GPU:0")
           (Fields (Some "worker") None None VNone VNone)
           (Fields None None None (VStr "GPU") (VInt 0)) []
           eq_refl eq_refl).
Defined.

(** The documented example, with the scopes' functions applied from the
    innermost one outwards to a node that has no device yet. *)
Example merge_device_docstring :
  (d ← resolve "/job:ps" "";
   d ← resolve "/device:CPU:0" d;
   d ← resolve "/job:worker" d;
   resolve "/device:GPU:0" d) [] =
  ([Fields (Some "ps") None None VNone VNone; blank;
    Fields (Some "ps") None None VNone VNone;
    Fields None None None (VStr "CPU") (VInt 0);
    Fields (Some "ps") None None VNone VNone;
    Fields (Some "ps") None None (VStr "CPU") (VInt 0);
    Fields (Some "worker") None None VNone VNone;
    Fields (Some "ps") None None (VStr "CPU") (VInt 0);
    Fields (Some "ps") None None (VStr "CPU") (VInt 0);
    Fields None None None (VStr "GPU") (VInt 0);
    Fields (Some "ps") None None (VStr "CPU") (VInt 0);
    Fields (Some "ps") None None (VStr "CPU") (VInt 0)],
   Return "/job:ps/device:CPU:0").
Proof. reflexivity. Qed.

(** C9: a call of the function returned by [merge_device] only adds
    objects to the store; the captured spec keeps its five fields, the
    returned spec is another object, and writing to that object
    afterwards leaves the captured spec as it was. *)
Theorem merge_device_keeps_captured arg h h1 f :
  (forall d, arg = SpecDevice d -> d < length h) ->
  merge_device arg h = (h1, Return f) ->
  captured arg h < length h1
  /\ forall node h' h2 r,
       captured arg h < length h' ->
       f node h' = (h2, r) ->
       (exists added, h2 = h' ++ added)
       /\ h2 !!! captured arg h = h' !!! captured arg h
       /\ forall copy d,
            r = Return copy ->
            copy <> captured arg h
            /\ <[copy := d]> h2 !!! captured arg h = h' !!! captured arg h.
Proof.
  intros Hlive. rewrite merge_device_outcome.
  assert (forall spec node h' h2 r,
    spec < length h' -> _device_function spec node h' = (h2, r) ->
    (exists added, h2 = h' ++ added)
    /\ h2 !!! spec = h' !!! spec
    /\ forall copy d, r = Return copy ->
         copy <> spec /\ <[copy := d]> h2 !!! spec = h' !!! spec) as Hcall.
  { intros spec node h' h2 r Hlt. rewrite device_function_outcome by done.
    destruct (from_string _ []) as [hc [l|e]]; intros [= <- <-].
    - split; [eauto|]. split; [by rewrite lookup_total_app_l|].
      intros copy d [= <-]. split; [lia|].
      rewrite list_lookup_total_insert_ne by lia. by rewrite lookup_total_app_l.
    - split; [eauto|]. split; [by rewrite lookup_total_app_l|]. by intros. }
  destruct arg as [d|s]; simpl.
  - intros [= <- <-]. split; [by apply Hlive|]. apply Hcall.
  - destruct (from_string_single (or_empty s)) as (ds & r & Hs). rewrite Hs.
    destruct r as [l|e]; intros [= <- <-].
    split; [rewrite length_app; simpl; lia|]. apply Hcall.
Qed.

Lemma merge_device_keeps_captured_worker :
  captured (SpecStr (Some "/job:worker")) [] < 1
  /\ (exists added,
        [Fields (Some "worker") None None VNone VNone;
         Fields None None None (VStr "GPU") (VInt 0);
         Fields (Some "worker") None None (VStr "GPU") (VInt 0)]
        = [Fields (Some "worker") None None VNone VNone] ++ added)
  /\ [Fields (Some "worker") None None VNone VNone;
      Fields None None None (VStr "GPU") (VInt 0);
      Fields (Some "worker") None None (VStr "GPU") (VInt 0)] !!! 0
     = Fields (Some "worker") None None VNone VNone
  /\ forall copy d,
       Return 2 = Return copy ->
       copy <> 0
       /\ <[copy := d]>
            [Fields (Some "worker") None None VNone VNone;
             Fields None None None (VStr "GPU") (VInt 0);
             Fields (Some "worker") None None (VStr "GPU") (VInt 0)] !!! 0
          = Fields (Some "worker") None None VNone VNone.
Proof.
  destruct (merge_device_keeps_captured (SpecStr (Some "/job:worker")) []
              [Fields (Some "worker") None None VNone VNone]
              (_device_function 0)
              (fun d (H : SpecStr (Some "/job:worker") = SpecDevice d) =>
                 match H with end)
              eq_refl) as [Hlive Hcall].
  split; [exact Hlive|].
  apply (Hcall {| device := Some "/device:GPU:0" |}
           [Fields (Some "worker") None None VNone VNone]
           [Fields (Some "worker") None None VNone VNone;
            Fields None None None (VStr "GPU") (VInt 0);
            Fields (Some "worker") None None (VStr "GPU") (VInt 0)]
           (Return 2)).
  - simpl. lia.
  - reflexivity.
Defined.

(** C10: given an instance, [merge_device] keeps the reference and
    leaves the store as it is; the copy is taken at each call, so a call
    made after the instance was mutated merges the candidate over the
    mutated fields. *)
Theorem merge_device_by_reference d h mutated node dc :
  d < length h ->
  from_string (or_empty (device node)) [] = ([dc], Return 0) ->
  exists f,
    merge_device (SpecDevice d) h = (h, Return f)
    /\ f node (<[d := mutated]> h) =
       (<[d := mutated]> h ++ [dc; overlay mutated dc], Return (S (length h))).
Proof.
  intros Hlt Hc. eexists. split; [by rewrite merge_device_outcome|].
  rewrite device_function_outcome by (by rewrite length_insert).
  by rewrite Hc, list_lookup_total_insert_eq, length_insert.
Qed.

Lemma merge_device_by_reference_mutated :
  exists f,
    merge_device (SpecDevice 0) [Fields (Some "worker") None None VNone VNone]
      = ([Fields (Some "worker") None None VNone VNone], Return f)
    /\ f {| device := Some "/device:GPU:0" |}
         (<[0 := Fields (Some "ps") None (Some 1%Z) VNone VNone]>
            [Fields (Some "worker") None None VNone VNone]) =
       (<[0 := Fields (Some "ps") None (Some 1%Z) VNone VNone]>
          [Fields (Some "worker") None None VNone VNone]
        ++ [Fields None None None (VStr "GPU") (VInt 0);
            overlay (Fields (Some "ps") None (Some 1%Z) VNone VNone)
                    (Fields None None None (VStr "GPU") (VInt 0))],
        Return 2).
Proof.
  apply (merge_device_by_reference 0 [Fields (Some "worker") None None VNone VNone]
           (Fields (Some "ps") None (Some 1%Z) VNone VNone)
           {| device := Some "/device:GPU:0" |}
           (Fields None None None (VStr "GPU") (VInt 0))).
  - simpl. lia.
  - reflexivity.
Defined.

(** * Further properties of the module *)

(** ** Numerals of any sign *)

Section Signed.

Lemma str_of_Z_negative n :
  (n < 0)%Z ->
  exists d, d <> Decimal.Nil
            /\ str_of_Z n = String "-" (NilEmpty.string_of_uint d)
            /\ (- Z.of_uint d)%Z = n.
Proof.
  intros Hn. destruct n as [|p|p]; [lia|lia|].
  exists (Pos.to_uint p). split; [apply DecimalPos.Unsigned.to_uint_nonnil|]. split.
  - unfold str_of_Z; simpl.
    pose proof (DecimalPos.Unsigned.to_uint_nonnil p).
    by destruct (Pos.to_uint p).
  - exact (DecimalZ.of_to (Z.neg p)).
Qed.

Lemma int_of_str_of_Z_negative n : (n < 0)%Z -> int_of_str (str_of_Z n) = Some n.
Proof.
  intros Hn. destruct (str_of_Z_negative n Hn) as (d & Hd & Hs & Hv).
  unfold int_of_str. rewrite Hs.
  pose proof (string_of_uint_digits d) as Hdig.
  pose proof (string_of_uint_nonempty d Hd) as Hne.
  rewrite strip_id.
  2: { change (Str.all (fun c => negb (Str.is_space c)) (NilEmpty.string_of_uint d) = true).
       eapply all_impl; [|exact Hdig]. intros c.
       destruct c as [[] [] [] [] [] [] [] []]; try discriminate; reflexivity. }
  destruct (NilEmpty.string_of_uint d) as [|c s] eqn:Hstr; [done|].
  by rewrite <- Hstr, NilEmpty.usu, Hv.
Qed.

(** [int(str(n)) == n] for every integer. *)
Lemma int_str n : int (VStr (str (VInt n))) = Return n.
Proof.
  simpl. destruct (Z_lt_le_dec n 0).
  - by rewrite int_of_str_of_Z_negative.
  - by rewrite int_of_str_of_Z.
Qed.

Lemma str_of_Z_numeral n :
  Str.all (fun c => Str.is_digit c || Ascii.eqb c "-") (str_of_Z n) = true.
Proof.
  destruct (Z_lt_le_dec n 0) as [Hn|Hn].
  - destruct (str_of_Z_negative n Hn) as (d & _ & -> & _). simpl.
    eapply all_impl; [|apply string_of_uint_digits]. by intros c ->.
  - destruct (str_of_Z_digits n Hn) as [Hd _].
    eapply all_impl; [|exact Hd]. by intros c ->.
Qed.

Lemma str_of_Z_lacks sep n :
  Str.is_digit sep || Ascii.eqb sep "-" = false -> Str.lacks sep (str_of_Z n) = true.
Proof.
  intros Hsep. eapply all_impl; [|apply str_of_Z_numeral]. intros c Hc.
  destruct (Ascii.eqb_spec c sep) as [->|]; [congruence|done].
Qed.

Lemma str_of_Z_never_star n : String.eqb (str_of_Z n) "*" = false.
Proof.
  pose proof (str_of_Z_numeral n) as Hnum.
  destruct (String.eqb_spec (str_of_Z n) "*") as [E|]; [|done].
  by rewrite E in Hnum.
Qed.

End Signed.

(** ** What the loop can do to [self] *)

Section Effects.
Import Device.
Implicit Types (h : heap) (self : loc) (spec : string) (y : list string).

(** One segment writes to [self] only, and only in one of the ways of
    [effect], whether it raises or not. *)
Lemma parse_segment_effect self spec y h :
  self < length h ->
  exists d' r,
    parse_segment self spec y h = (<[self := d']> h, r)
    /\ effect y (h !!! self) d'.
Proof.
  intros Hlt.
  assert (<[self := h !!! self]> h = h) as Hsame by (by apply insert_same).
  destruct (keyed "job" y) eqn:Kj;
    [|destruct (keyed "replica" y) eqn:Kr;
      [|destruct (keyed "task" y) eqn:Kt]].
  - rewrite parse_segment_job by done. unfold set_job, setattr. simpl.
    eexists _, _. split; [done|]. by apply effect_job.
  - rewrite parse_segment_replica by done.
    unfold set_replica, setattr, lift, mbind, Py_bind. simpl.
    destruct (int_of_str (item y 1)) as [n|].
    + eexists _, _. split; [done|]. by apply effect_replica.
    + exists (h !!! self), (Raise (InvalidLiteral (item y 1))).
      rewrite Hsame. split; [done|apply effect_none].
  - rewrite parse_segment_task by done.
    unfold set_task, setattr, lift, mbind, Py_bind. simpl.
    destruct (int_of_str (item y 1)) as [n|].
    + eexists _, _. split; [done|]. by apply effect_task.
    + exists (h !!! self), (Raise (InvalidLiteral (item y 1))).
      rewrite Hsame. split; [done|apply effect_none].
  - destruct (short_form y) eqn:Sf; [|destruct (long_form y) eqn:Lf].
    + rewrite parse_segment_short by done.
      destruct (device_type (h !!! self)) eqn:Hty; simpl;
        try (exists (h !!! self), (Raise (MultipleDeviceTypes spec));
             rewrite Hsame; split; [done|apply effect_none]).
      destruct ((length y =? 2) && negb (String.eqb (item y 1) "*"));
        [destruct (int_of_str (item y 1))|];
        eexists _, _; (split; [done|]);
        by first [apply effect_short_index | apply effect_short].
    + rewrite parse_segment_long by done.
      destruct (device_type (h !!! self)) eqn:Hty; simpl;
        try (exists (h !!! self), (Raise (MultipleDeviceTypes spec));
             rewrite Hsame; split; [done|apply effect_none]).
      destruct (negb (String.eqb (item y 2) "*"));
        [destruct (int_of_str (item y 2))|];
        eexists _, _; (split; [done|]);
        by first [apply effect_long_index | apply effect_long].
    + rewrite parse_segment_unrecognised
        by (unfold recognised, device_form; by rewrite Kj, Kr, Kt, Sf, Lf).
      destruct (String.eqb (item y 0) "");
        eexists (h !!! self), _; rewrite Hsame; (split; [done|apply effect_none]).
Qed.

(** A property of the record of [self] that every effect of the segments
    at hand keeps holds after the loop, however the loop ends; the loop
    touches no other object. *)
Lemma for_each_invariant (P : fields -> Prop) (Q : list string -> Prop)
    self spec (l : list (list string)) h :
  (forall y d d', Q y -> P d -> effect y d d' -> P d') ->
  Forall Q l ->
  self < length h ->
  P (h !!! self) ->
  exists d' r,
    for_each l (parse_segment self spec) h = (<[self := d']> h, r) /\ P d'.
Proof.
  intros Hkeep Hl. revert h. induction Hl as [|y l Hy Hl IH]; intros h Hlt HP.
  - exists (h !!! self), (Return tt). simpl. unfold mret, Py_ret.
    by rewrite insert_same.
  - simpl. unfold mbind, Py_bind.
    destruct (parse_segment_effect self spec y h Hlt) as (d1 & r1 & -> & He).
    destruct r1 as [[]|e].
    + destruct (IH (<[self := d1]> h)) as (d2 & r2 & -> & HP2).
      * by rewrite length_insert.
      * rewrite list_lookup_total_insert_eq by done. eauto.
      * exists d2, r2. by rewrite list_insert_insert_eq.
    + exists d1, (Raise e). eauto.
Qed.

End Effects.

(** ** Splitting yields tokens *)

Section Tokens.

Lemma split_all (p : ascii -> bool) sep s :
  Str.all p s = true -> Forall (fun t => Str.all p t = true) (Str.split sep s).
Proof.
  induction s as [|c s IH]; simpl; [by repeat constructor|].
  intros [Hc Hs]%andb_true_iff. specialize (IH Hs).
  destruct (Ascii.eqb c sep); [by constructor|].
  destruct (Str.split sep s) as [|piece pieces].
  - repeat constructor. simpl. by rewrite Hc.
  - inversion IH; subst. constructor; [|done]. simpl. by rewrite Hc.
Qed.

(** The pieces of a split hold no separator. *)
Lemma split_lacks sep s : Forall (fun t => Str.lacks sep t = true) (Str.split sep s).
Proof.
  induction s as [|c s IH]; simpl; [by repeat constructor|].
  destruct (Ascii.eqb_spec c sep) as [->|Hne]; [by constructor|].
  destruct (Str.split sep s) as [|piece pieces].
  - repeat constructor. unfold Str.lacks. simpl.
    by destruct (Ascii.eqb_spec c sep).
  - inversion IH; subst. constructor; [|done]. unfold Str.lacks in *. simpl.
    destruct (Ascii.eqb_spec c sep); [done|]. by simpl.
Qed.

Lemma splits_tokens spec :
  Forall (fun y => Forall (fun t => token t = true) y) (splits spec).
Proof.
  unfold splits. apply Forall_map.
  eapply Forall_impl; [apply (split_lacks "/" spec)|].
  intros x Hx. simpl.
  pose proof (split_all _ ":" x Hx) as Hslash.
  pose proof (split_lacks ":" x) as Hcolon.
  induction Hslash as [|t ts Ht Hts IH]; [constructor|].
  inversion Hcolon as [|? ? Hc Hcs]; subst. constructor; [|by apply IH].
  unfold token. apply andb_true_iff. split; [exact Ht|exact Hc].
Qed.

Lemma item_token y i : Forall (fun t => token t = true) y -> token (item y i) = true.
Proof.
  intros Hy. unfold item. revert i.
  induction Hy as [|t ts Ht Hts IH]; intros [|i]; simpl; auto.
Qed.

End Tokens.

(** ** The specs the parser builds *)

Section Wellformed.
Import Device.
Implicit Types (h : heap) (d : fields) (self : loc) (spec : string).

Lemma short_form_kind y :
  short_form y = true -> token (Str.upper (item y 0)) = true.
Proof.
  unfold short_form. intros [_ Hk]%andb_true_iff.
  by apply orb_true_iff in Hk as [->%String.eqb_eq| ->%String.eqb_eq].
Qed.

Lemma effect_wellformed y d d' :
  Forall (fun t => token t = true) y ->
  wellformed d = true -> effect y d d' -> wellformed d' = true.
Proof.
  intros Hy Hd He.
  pose proof (item_token y 1 Hy) as [H1 H1']%andb_true_iff.
  assert (short_form y = true ->
          Str.lacks "/" (Str.upper (item y 0)) = true
          /\ Str.lacks ":" (Str.upper (item y 0)) = true) as Hk.
  { intros Hs. by apply andb_true_iff, short_form_kind. }
  destruct d as [j r t ty ix]. unfold wellformed, coupled in *.
  repeat (apply andb_true_iff in Hd as [Hd ?]).
  inversion He; subst; simpl in *; subst;
    try (destruct Hk as [? ?]; [done|]);
    repeat (apply andb_true_iff; split); rewrite ?orb_true_r;
    try done; by destruct ix.
Qed.

(** The object [from_string] allocates is well formed, however the parse
    ends. *)
Lemma from_string_shape spec h :
  exists d r, from_string spec h = (h ++ [d], r) /\ wellformed d = true.
Proof.
  rewrite from_string_loop. unfold parse_loop.
  destruct (for_each_invariant (fun d => wellformed d = true)
              (Forall (fun t => token t = true))
              (length h) spec (splits spec) (h ++ [blank]))
    as (d & r & -> & Hd).
  - intros y d d'. apply effect_wellformed.
  - apply splits_tokens.
  - rewrite length_app. simpl. lia.
  - by rewrite lookup_fresh.
  - exists d, (lift_loc (length h) r). by rewrite insert_fresh.
Qed.

Lemma wellformed_fields d :
  wellformed d = true ->
  (forall j, _job d = Some j -> Str.lacks "/" j = true /\ Str.lacks ":" j = true)
  /\ (device_type d = VNone \/
      exists kind, device_type d = VStr kind
                   /\ Str.lacks "/" kind = true /\ Str.lacks ":" kind = true)
  /\ (device_index d = VNone \/ exists n, device_index d = VInt n)
  /\ coupled d = true.
Proof.
  unfold wellformed. destruct d as [j r t ty ix]; simpl.
  intros Hc. repeat (apply andb_true_iff in Hc as [Hc ?]).
  split; [|split; [|split]]; [| | |done].
  - intros ? ->. by apply andb_true_iff.
  - destruct ty as [| | |kind]; try done; [by left|right].
    exists kind. split; [done|]. by apply andb_true_iff.
  - destruct ix as [| |n|]; try done; [by left|right; eauto].
Qed.

Lemma index_or_star_token sep d :
  Str.is_digit sep || Ascii.eqb sep "-" = false -> sep <> "*"%char ->
  (device_index d = VNone \/ exists n, device_index d = VInt n) ->
  Str.lacks sep (index_or_star d) = true.
Proof.
  intros Hsep Hstar [Hix|(n & Hix)]; unfold index_or_star; rewrite Hix.
  - change (negb (Ascii.eqb "*" sep) && true = true).
    destruct (Ascii.eqb_spec "*" sep); [congruence|done].
  - by apply str_of_Z_lacks.
Qed.

Lemma wellformed_bodies_lack_slash d :
  wellformed d = true -> Forall (fun b => Str.lacks "/" b = true) (bodies d).
Proof.
  intros (Hj & Hty & Hix & _)%wellformed_fields.
  unfold bodies, job_body, replica_body, task_body, device_body.
  repeat apply Forall_app_2.
  - destruct (_job d) as [j|]; [|done]. apply Forall_singleton.
    rewrite lacks_app. by destruct (Hj j eq_refl) as [-> _]; reflexivity.
  - destruct (_replica d) as [r|]; [|done]. apply Forall_singleton.
    by rewrite lacks_app, (str_of_Z_lacks "/" r).
  - destruct (_task d) as [t|]; [|done]. apply Forall_singleton.
    by rewrite lacks_app, (str_of_Z_lacks "/" t).
  - destruct Hty as [->|(kind & -> & Hk & _)]; [done|]. apply Forall_singleton.
    rewrite !lacks_app. simpl str. rewrite Hk.
    by rewrite (index_or_star_token "/" d).
Qed.

Lemma wellformed_tokens_bodies d :
  wellformed d = true ->
  map (Str.split ":") (bodies d) =
  match _job d with Some j => [["job"; j]] | None => [] end
  ++ match _replica d with Some r => [["replica"; str_of_Z r]] | None => [] end
  ++ match _task d with Some t => [["task"; str_of_Z t]] | None => [] end
  ++ match device_type d with
     | VNone => []
     | ty => [["device"; str ty; index_or_star d]]
     end.
Proof.
  intros (Hj & Hty & Hix & _)%wellformed_fields.
  unfold bodies, job_body, replica_body, task_body, device_body.
  rewrite !map_app. repeat f_equal.
  - destruct (_job d) as [j|]; [|done]. cbn [map].
    change ("job:" +:+ j) with ("job" +:+ String ":" j).
    rewrite split_keyed; [reflexivity..|]. by destruct (Hj j eq_refl).
  - destruct (_replica d) as [r|]; [|done]. cbn [map].
    change ("replica:" +:+ str_of_Z r) with ("replica" +:+ String ":" (str_of_Z r)).
    rewrite split_keyed; [reflexivity..|]. by apply str_of_Z_lacks.
  - destruct (_task d) as [t|]; [|done]. cbn [map].
    change ("task:" +:+ str_of_Z t) with ("task" +:+ String ":" (str_of_Z t)).
    rewrite split_keyed; [reflexivity..|]. by apply str_of_Z_lacks.
  - destruct Hty as [->|(kind & -> & _ & Hk)]; [done|]. cbn [map str].
    rewrite split_device; [done..|]. by apply index_or_star_token.
Qed.

Lemma int_of_str_any n : int_of_str (str_of_Z n) = Some n.
Proof.
  destruct (Z_lt_le_dec n 0).
  - by apply int_of_str_of_Z_negative.
  - by apply int_of_str_of_Z.
Qed.

(** Parsing the canonical string of a well-formed record from a cleared
    object gives the record back. *)
Lemma parse_loop_wellformed d :
  wellformed d = true ->
  parse_loop (canonical d) 0 [blank] = ([d], Return tt).
Proof.
  intros Hd. unfold parse_loop, splits.
  rewrite canonical_join, split_join by (by apply wellformed_bodies_lack_slash).
  cbn [map]. rewrite wellformed_tokens_bodies by done.
  generalize (join (bodies d)). intros spec.
  apply wellformed_fields in Hd as (Hj & Hty & Hix & Hcoupled).
  unfold index_or_star, coupled in *.
  destruct d as [j r t ty ix]; simpl in *.
  destruct Hty as [->|(kind & -> & _)], Hix as [->|(n & ->)];
    try discriminate Hcoupled;
    destruct j as [j|], r as [r|], t as [t|];
    repeat (progress (
      cbn -[int_of_str str_of_Z];
      unfold set_job, set_replica, set_task, getattr, setattr, raise, lift,
        mbind, mret, Py_bind, Py_ret, int;
      rewrite ?int_of_str_any, ?str_of_Z_never_star));
    reflexivity.
Qed.

End Wellformed.

(** ** Parsing and serialising *)

(** X1: whatever the string and however the parse ends, [from_string]
    adds one object to the store and touches no other; in that object
    [job] and [device_type] hold no [/] and no [:], [device_type] is
    absent or a string, [device_index] is absent or an integer, and
    [device_index] is absent whenever [device_type] is. *)
Theorem from_string_wellformed spec h :
  exists d r,
    from_string spec h = (h ++ [d], r)
    /\ (forall j, _job d = Some j -> Str.lacks "/" j = true /\ Str.lacks ":" j = true)
    /\ (device_type d = VNone \/
        exists kind, device_type d = VStr kind
                     /\ Str.lacks "/" kind = true /\ Str.lacks ":" kind = true)
    /\ (device_index d = VNone \/ exists n, device_index d = VInt n)
    /\ (device_type d = VNone -> device_index d = VNone).
Proof.
  destruct (from_string_shape spec h) as (d & r & Hparse & Hd).
  exists d, r. split; [done|].
  destruct (wellformed_fields d Hd) as (Hj & Hty & Hix & Hc).
  repeat (split; [done|]).
  intros Hnone. unfold coupled in Hc. rewrite Hnone in Hc.
  by destruct (device_index d).
Qed.

(** X2: the round trip holds for every well-formed spec, negative
    integers and empty names included: parsing what [to_string] returns
    gives a new spec with the same five fields. *)
Theorem round_trip_wellformed h self :
  wellformed (h !!! self) = true ->
  exists s,
    Device.to_string self h = (h, Return s)
    /\ from_string s h = (h ++ [h !!! self], Return (length h)).
Proof.
  intros Hd. exists (canonical (h !!! self)).
  split; [apply to_string_canonical|].
  rewrite from_string_focus. unfold focus.
  by rewrite parse_loop_wellformed.
Qed.

Lemma round_trip_negative_replica :
  exists s,
    Device.to_string 0 [Fields (Some "") (Some (-3)%Z) None (VStr "tpu") VNone]
      = ([Fields (Some "") (Some (-3)%Z) None (VStr "tpu") VNone], Return s)
    /\ from_string s [Fields (Some "") (Some (-3)%Z) None (VStr "tpu") VNone]
       = ([Fields (Some "") (Some (-3)%Z) None (VStr "tpu") VNone;
           Fields (Some "") (Some (-3)%Z) None (VStr "tpu") VNone], Return 1).
Proof.
  apply (round_trip_wellformed
           [Fields (Some "") (Some (-3)%Z) None (VStr "tpu") VNone] 0).
  reflexivity.
Defined.

(** X3: parsing is idempotent through the canonical string: for every
    string that parses, serialising the parsed spec and parsing that
    string gives a spec with the same five fields. *)
Theorem parse_serialise_parse spec h h1 self :
  from_string spec h = (h1, Return self) ->
  exists s,
    Device.to_string self h1 = (h1, Return s)
    /\ from_string s h1 = (h1 ++ [h1 !!! self], Return (length h1)).
Proof.
  intros Hparse.
  destruct (from_string_shape spec h) as (d & r & Hshape & Hd).
  rewrite Hshape in Hparse. injection Hparse as <- ->.
  assert (self = length h) as ->.
  { rewrite from_string_loop in Hshape. injection Hshape as _ Hr.
    by destruct (parse_loop spec (length h) (h ++ [blank])).2 as [[]|e];
      simpl in Hr; [injection Hr|]. }
  exists (canonical d). rewrite to_string_canonical, lookup_fresh.
  split; [done|].
  rewrite from_string_focus. unfold focus.
  by rewrite parse_loop_wellformed.
Qed.

Lemma parse_serialise_parse_short_form :
  exists s,
    Device.to_string 0 [Fields (Some "w") (Some 7%Z) None (VStr "GPU") VNone]
      = ([Fields (Some "w") (Some 7%Z) None (VStr "GPU") VNone], Return s)
    /\ from_string s [Fields (Some "w") (Some 7%Z) None (VStr "GPU") VNone]
       = ([Fields (Some "w") (Some 7%Z) None (VStr "GPU") VNone;
           Fields (Some "w") (Some 7%Z) None (VStr "GPU") VNone], Return 1).
Proof.
  apply (parse_serialise_parse "/gpu:*//replica: +07 /job:w" []
           [Fields (Some "w") (Some 7%Z) None (VStr "GPU") VNone] 0).
  reflexivity.
Defined.

(** X4: on well-formed specs [to_string] is injective: two specs that
    serialise to the same string have the same five fields. *)
Theorem to_string_injective h a b s :
  wellformed (h !!! a) = true ->
  wellformed (h !!! b) = true ->
  Device.to_string a h = (h, Return s) ->
  Device.to_string b h = (h, Return s) ->
  h !!! a = h !!! b.
Proof.
  intros Ha Hb. rewrite !to_string_canonical. intros [= <-] [= Hs].
  pose proof (parse_loop_wellformed _ Ha) as Hpa.
  pose proof (parse_loop_wellformed _ Hb) as Hpb.
  rewrite Hs, Hpa in Hpb. by injection Hpb.
Qed.

Lemma to_string_injective_same :
  [Fields (Some "w") None None VNone VNone;
   Fields (Some "w") None None VNone VNone] !!! 0
  = [Fields (Some "w") None None VNone VNone;
     Fields (Some "w") None None VNone VNone] !!! 1.
Proof.
  apply (to_string_injective
           [Fields (Some "w") None None VNone VNone;
            Fields (Some "w") None None VNone VNone] 0 1 "/job:w");
    reflexivity.
Defined.

Example to_string_not_injective_otherwise :
  Device.to_string 0
    [Fields (Some "a/replica:1") None None VNone VNone;
     Fields (Some "a") (Some 1%Z) None VNone VNone]
  = ([Fields (Some "a/replica:1") None None VNone VNone;
      Fields (Some "a") (Some 1%Z) None VNone VNone], Return "/job:a/replica:1")
  /\ Device.to_string 1
       [Fields (Some "a/replica:1") None None VNone VNone;
        Fields (Some "a") (Some 1%Z) None VNone VNone]
     = ([Fields (Some "a/replica:1") None None VNone VNone;
         Fields (Some "a") (Some 1%Z) None VNone VNone], Return "/job:a/replica:1").
Proof. split; reflexivity. Qed.

(** ** Repeated and missing segments *)

Section LastWins.
Import Device.
Implicit Types (h : heap) (self : loc) (spec : string) (y : list string).

(** The loop run to its end without error on a live object: what the
    segment [y] establishes and the later segments keep holds at the
    end. *)
Lemma loop_last (P : fields -> Prop) (K : list string -> bool)
    self spec pre y post h h1 :
  self < length h ->
  for_each (pre ++ y :: post) (parse_segment self spec) h = (h1, Return tt) ->
  (forall h' h'', self < length h' ->
     parse_segment self spec y h' = (h'', Return tt) ->
     length h'' = length h' /\ P (h'' !!! self)) ->
  (forall z d d', K z = false -> P d -> effect z d d' -> P d') ->
  Forall (fun z => K z = false) post ->
  P (h1 !!! self).
Proof.
  intros Hlt Hrun Hy Hkeep Hpost.
  rewrite for_each_app in Hrun.
  destruct (for_each pre _ h) as [ha [[]|e]] eqn:Hpre; [|done].
  destruct (for_each_ok _ _ _ _ _ Hlt Hpre) as [Hla _].
  simpl in Hrun. unfold mbind, Py_bind in Hrun.
  destruct (parse_segment self spec y ha) as [hb [[]|e]] eqn:Hstep; [|done].
  assert (self < length ha) as Hlta by lia.
  destruct (Hy ha hb Hlta Hstep) as [Hlb HP].
  assert (self < length hb) as Hltb by lia.
  destruct (for_each_invariant P (fun z => K z = false) self spec post hb
              Hkeep Hpost Hltb HP) as (d & r & Hrest & Hd).
  rewrite Hrest in Hrun. injection Hrun as <- _.
  by rewrite list_lookup_total_insert_eq.
Qed.

Lemma effect_keeps_job z d d' :
  keyed "job" z = false -> effect z d d' -> _job d' = _job d.
Proof. intros Hk He. destruct d. inversion He; subst; simpl; congruence. Qed.

Lemma effect_keeps_replica z d d' :
  keyed "replica" z = false -> effect z d d' -> _replica d' = _replica d.
Proof. intros Hk He. destruct d. inversion He; subst; simpl; congruence. Qed.

Lemma effect_keeps_task z d d' :
  keyed "task" z = false -> effect z d d' -> _task d' = _task d.
Proof. intros Hk He. destruct d. inversion He; subst; simpl; congruence. Qed.

Lemma from_string_run spec h h1 self :
  from_string spec h = (h1, Return self) ->
  self = length h
  /\ for_each (splits spec) (parse_segment (length h) spec) (h ++ [blank])
     = (h1, Return tt).
Proof.
  rewrite from_string_loop. unfold parse_loop.
  destruct (for_each _ _ _) as [h' [[]|e]]; simpl; [|done].
  by intros [= <- <-].
Qed.

End LastWins.

(** X5: [job] may be given any number of times and the last one wins:
    after a successful parse, [job] is the name of the last [job:<name>]
    segment, and it is absent when the string has no such segment. *)
Theorem job_last_wins spec h h1 self :
  from_string spec h = (h1, Return self) ->
  (forall pre y post,
     splits spec = pre ++ y :: post ->
     keyed "job" y = true ->
     Forall (fun z => keyed "job" z = false) post ->
     _job (h1 !!! self) = Some (item y 1))
  /\ (Forall (fun z => keyed "job" z = false) (splits spec) ->
      _job (h1 !!! self) = None).
Proof.
  intros [-> Hrun]%from_string_run.
  assert (length h < length (h ++ [blank])) as Hlt
    by (rewrite length_app; simpl; lia).
  split.
  - intros pre y post Hsplit Hy Hpost. rewrite Hsplit in Hrun.
    apply (loop_last (fun d => _job d = Some (item y 1)) (keyed "job")
             _ _ _ _ _ _ _ Hlt Hrun); [| |done].
    + intros h' h'' Hlt'. rewrite parse_segment_job by done.
      unfold Device.set_job, setattr. simpl. intros [= <-].
      by rewrite length_insert, list_lookup_total_insert_eq.
    + intros z d d' Hz Hd He. by rewrite (effect_keeps_job z d d').
  - intros Hnone.
    destruct (for_each_invariant (fun d => _job d = None)
                (fun z => keyed "job" z = false)
                (length h) spec (splits spec) (h ++ [blank]))
      as (d & r & Hrun' & Hd); [|done|done|by rewrite lookup_fresh|].
    + intros z d d' Hz Hd He. by rewrite (effect_keeps_job z d d').
    + rewrite Hrun' in Hrun. injection Hrun as <- _.
      by rewrite list_lookup_total_insert_eq.
Qed.

Lemma job_last_wins_twice :
  _job ([Fields (Some "b") None None (VStr "CPU") (VInt 0)] !!! 0) = Some "b".
Proof.
  exact (proj1 (job_last_wins "/job:a/cpu:0/job:b" []
                  [Fields (Some "b") None None (VStr "CPU") (VInt 0)] 0 eq_refl)
           [[""]; ["job"; "a"]; ["cpu"; "0"]] ["job"; "b"] []
           eq_refl eq_refl (List.Forall_nil _)).
Defined.

(** X6: [replica] and [task] may be repeated too: after a successful
    parse each is the integer that [int] reads in the last segment of
    its keyword. *)
Theorem replica_task_last_wins spec h h1 self pre y post :
  from_string spec h = (h1, Return self) ->
  splits spec = pre ++ y :: post ->
  (keyed "replica" y = true ->
   Forall (fun z => keyed "replica" z = false) post ->
   exists n, int (VStr (item y 1)) = Return n /\ _replica (h1 !!! self) = Some n)
  /\ (keyed "task" y = true ->
      Forall (fun z => keyed "task" z = false) post ->
      exists n, int (VStr (item y 1)) = Return n /\ _task (h1 !!! self) = Some n).
Proof.
  intros [-> Hrun]%from_string_run Hsplit. rewrite Hsplit in Hrun.
  assert (length h < length (h ++ [blank])) as Hlt
    by (rewrite length_app; simpl; lia).
  split; intros Hy Hpost.
  - apply (loop_last
             (fun d => exists n, int (VStr (item y 1)) = Return n /\ _replica d = Some n)
             (keyed "replica") _ _ _ _ _ _ _ Hlt Hrun); [| |done].
    + intros h' h'' Hlt'. rewrite parse_segment_replica by done.
      unfold Device.set_replica, setattr, lift, mbind, Py_bind. simpl.
      destruct (int_of_str (item y 1)) as [n|]; [|done]. intros [= <-].
      rewrite length_insert, list_lookup_total_insert_eq by done. eauto.
    + intros z d d' Hz (n & Hn & Hd) He. exists n.
      by rewrite (effect_keeps_replica z d d').
  - apply (loop_last
             (fun d => exists n, int (VStr (item y 1)) = Return n /\ _task d = Some n)
             (keyed "task") _ _ _ _ _ _ _ Hlt Hrun); [| |done].
    + intros h' h'' Hlt'. rewrite parse_segment_task by done.
      unfold Device.set_task, setattr, lift, mbind, Py_bind. simpl.
      destruct (int_of_str (item y 1)) as [n|]; [|done]. intros [= <-].
      rewrite length_insert, list_lookup_total_insert_eq by done. eauto.
    + intros z d d' Hz (n & Hn & Hd) He. exists n.
      by rewrite (effect_keeps_task z d d').
Qed.

Lemma replica_last_wins_twice :
  exists n, int (VStr (item ["replica"; " 2"] 1)) = Return n
            /\ _replica ([Fields None (Some 2%Z) (Some 5%Z) VNone VNone] !!! 0) = Some n.
Proof.
  apply (proj1 (replica_task_last_wins "/replica:1/task:5/replica: 2" []
                  [Fields None (Some 2%Z) (Some 5%Z) VNone VNone] 0
                  [[""]; ["replica"; "1"]; ["task"; "5"]] ["replica"; " 2"] []
                  eq_refl eq_refl)).
  - reflexivity.
  - constructor.
Defined.

(** ** Slashes, errors and parsing into an existing object *)

Section Slashes.
Import Device.
Implicit Types (h : heap) (self : loc) (spec : string) (y : list string).

Lemma split_nonempty sep s : Str.split sep s <> [].
Proof.
  destruct s as [|c s]; simpl; [done|].
  destruct (Ascii.eqb c sep); [done|].
  by destruct (Str.split sep s).
Qed.

Lemma split_snoc sep s :
  Str.split sep (s +:+ String sep "") = Str.split sep s ++ [""].
Proof.
  induction s as [|c s IH]; simpl.
  - by rewrite Ascii.eqb_refl.
  - destruct (Ascii.eqb c sep); [by rewrite IH|].
    rewrite IH. pose proof (split_nonempty sep s).
    by destruct (Str.split sep s).
Qed.

Lemma same_kind_refl {A} (r : outcome A) : same_kind r r.
Proof. by destruct r as [a|[]]. Qed.

Lemma same_kind_lift {A} l (r r' : outcome A) :
  same_kind r r' -> same_kind (lift_loc l r) (lift_loc l r').
Proof. by destruct r as [a|[]], r' as [a'|[]]. Qed.

(** The string [spec] is used by a segment for the message of its
    errors only. *)
Lemma parse_segment_any_spec self spec spec' y h :
  (parse_segment self spec y h).1 = (parse_segment self spec' y h).1
  /\ same_kind (parse_segment self spec y h).2 (parse_segment self spec' y h).2.
Proof.
  unfold parse_segment, set_job, set_replica, set_task, getattr, setattr,
    raise, lift, mbind, mret, Py_bind, Py_ret, int.
  cbv zeta.
  repeat (case_match; simpl; try done).
Qed.

Lemma for_each_any_spec self spec spec' (l : list (list string)) h :
  self < length h ->
  (for_each l (parse_segment self spec) h).1
  = (for_each l (parse_segment self spec') h).1
  /\ same_kind (for_each l (parse_segment self spec) h).2
               (for_each l (parse_segment self spec') h).2.
Proof.
  revert h. induction l as [|y l IH]; intros h Hlt; simpl; [done|].
  unfold mbind, Py_bind.
  destruct (parse_segment_any_spec self spec spec' y h) as [Hh Hr].
  destruct (parse_segment_effect self spec y h Hlt) as (d & r & Hy & _).
  rewrite Hy in Hh, Hr |- *. simpl in Hh.
  destruct (parse_segment self spec' y h) as [h' r']. simpl in Hh, Hr. subst h'.
  destruct r as [[]|e], r' as [[]|e'].
  - apply IH. by rewrite length_insert.
  - by simpl in Hr.
  - simpl in Hr. by destruct e.
  - split; [done|exact Hr].
Qed.

Lemma empty_segment_skipped self spec h :
  parse_segment self spec [""] h = (h, Return tt).
Proof. reflexivity. Qed.

End Slashes.

(** X7: a slash added in front of a string or after it changes nothing:
    the parse leaves the same store, and it returns the same reference
    or raises an error of the same kind about the same token. *)
Theorem outer_slashes_ignored spec h :
  (from_string ("/" +:+ spec) h).1 = (from_string spec h).1
  /\ same_kind (from_string ("/" +:+ spec) h).2 (from_string spec h).2
  /\ (from_string (spec +:+ "/") h).1 = (from_string spec h).1
  /\ same_kind (from_string (spec +:+ "/") h).2 (from_string spec h).2.
Proof.
  assert (length h < length (h ++ [blank])) as Hlt
    by (rewrite length_app; simpl; lia).
  rewrite !from_string_loop. unfold parse_loop. cbn [fst snd].
  assert (splits ("/" +:+ spec) = [""] :: splits spec) as -> by reflexivity.
  assert (splits (spec +:+ "/") = splits spec ++ [[""]]) as ->.
  { unfold splits. by rewrite split_snoc, map_app. }
  destruct (for_each_any_spec (length h) ("/" +:+ spec) spec (splits spec)
              (h ++ [blank]) Hlt) as [Hh1 Hr1].
  destruct (for_each_any_spec (length h) (spec +:+ "/") spec (splits spec)
              (h ++ [blank]) Hlt) as [Hh2 Hr2].
  split; [|split; [|split]].
  - simpl. unfold mbind, Py_bind. by rewrite empty_segment_skipped.
  - apply same_kind_lift. simpl. unfold mbind, Py_bind.
    by rewrite empty_segment_skipped.
  - rewrite for_each_app.
    by destruct (for_each (splits spec) (Device.parse_segment _ (spec +:+ "/")) _)
      as [h1 [[]|e]].
  - apply same_kind_lift. rewrite for_each_app.
    by destruct (for_each (splits spec) (Device.parse_segment _ (spec +:+ "/")) _)
      as [h1 [[]|e]].
Qed.

(** X8: [parse_from_string] on an existing object discards what the
    object held: whatever its fields were, it ends with the fields (also
    the partial ones of a failed parse) that [from_string] gives a new
    object, returns the object itself, and touches no other object. *)
Theorem parse_from_string_overwrites spec self h :
  self < length h ->
  exists d (r : outcome unit),
    from_string spec [] = ([d], lift_loc 0 r)
    /\ Device.parse_from_string self spec h = (<[self := d]> h, lift_loc self r).
Proof.
  intros Hlt. eexists _, _.
  rewrite from_string_focus, parse_from_string_focus by done. done.
Qed.

Lemma parse_from_string_overwrites_worker :
  exists d (r : outcome unit),
    from_string "/task:1" [] = ([d], lift_loc 0 r)
    /\ Device.parse_from_string 0 "/task:1"
         [Fields (Some "worker") (Some 2%Z) None (VStr "GPU") (VInt 0)]
       = (<[0 := d]> [Fields (Some "worker") (Some 2%Z) None (VStr "GPU") (VInt 0)],
          lift_loc 0 r).
Proof.
  apply (parse_from_string_overwrites "/task:1" 0
           [Fields (Some "worker") (Some 2%Z) None (VStr "GPU") (VInt 0)]).
  simpl. lia.
Defined.

Section Errors.
Import Device.
Implicit Types (h : heap) (self : loc) (spec : string) (y : list string).

Lemma parse_segment_error self spec y h e :
  self < length h ->
  (parse_segment self spec y h).2 = Raise e -> segment_error spec y e.
Proof.
  intros Hlt. unfold segment_error.
  assert (forall t, int_of_str t = None ->
                    int (VStr t) = Raise (InvalidLiteral t)) as Hint.
  { intros t Ht. simpl. by rewrite Ht. }
  destruct (keyed "job" y) eqn:Kj;
    [|destruct (keyed "replica" y) eqn:Kr;
      [|destruct (keyed "task" y) eqn:Kt]].
  - rewrite parse_segment_job by done. unfold set_job, setattr. simpl. discriminate.
  - rewrite parse_segment_replica by done.
    unfold set_replica, setattr, lift, mbind, Py_bind. simpl.
    destruct (int_of_str (item y 1)) eqn:Hi; simpl; [done|].
    intros [= <-]. left. exists (item y 1). split; [by left|]. split; [done|]. by apply Hint.
  - rewrite parse_segment_task by done.
    unfold set_task, setattr, lift, mbind, Py_bind. simpl.
    destruct (int_of_str (item y 1)) eqn:Hi; simpl; [done|].
    intros [= <-]. left. exists (item y 1). split; [by left|]. split; [done|]. by apply Hint.
  - destruct (short_form y) eqn:Sf; [|destruct (long_form y) eqn:Lf].
    + rewrite parse_segment_short by done.
      destruct (is_not_None (device_type (h !!! self))); simpl.
      { intros [= <-]. right. left. unfold device_form. by rewrite Sf. }
      destruct ((length y =? 2) && negb (String.eqb (item y 1) "*")); [|done].
      destruct (int_of_str (item y 1)) eqn:Hi; simpl; [done|].
      intros [= <-]. left. exists (item y 1). split; [by left|]. split; [done|]. by apply Hint.
    + rewrite parse_segment_long by done.
      destruct (is_not_None (device_type (h !!! self))); simpl.
      { intros [= <-]. right. left. unfold device_form. by rewrite Sf, Lf. }
      destruct (negb (String.eqb (item y 2) "*")); [|done].
      destruct (int_of_str (item y 2)) eqn:Hi; simpl; [done|].
      intros [= <-]. left. exists (item y 2). split; [by right|]. split; [done|]. by apply Hint.
    + assert (recognised y = false) as Hr
        by (unfold recognised, device_form; by rewrite Kj, Kr, Kt, Sf, Lf).
      rewrite parse_segment_unrecognised by done.
      destruct (String.eqb_spec (item y 0) ""); simpl; [done|].
      intros [= <-]. right. right. auto.
Qed.

Lemma for_each_error self spec (l : list (list string)) h e :
  self < length h ->
  (for_each l (parse_segment self spec) h).2 = Raise e ->
  exists y, y ∈ l /\ segment_error spec y e.
Proof.
  revert h. induction l as [|y l IH]; intros h Hlt; simpl; [done|].
  unfold mbind, Py_bind.
  pose proof (parse_segment_error self spec y h) as Hy.
  destruct (parse_segment_effect self spec y h Hlt) as (d & r & Hstep & _).
  rewrite Hstep in Hy |- *. destruct r as [[]|e'].
  - intros He.
    assert (self < length (<[self := d]> h)) as Hlt' by (by rewrite length_insert).
    destruct (IH _ Hlt' He) as (z & Hz & Hze).
    exists z. split; [apply elem_of_cons; by right|done].
  - simpl. intros [= <-]. exists y. split; [apply elem_of_cons; by left|].
    by apply Hy.
Qed.

End Errors.

(** X9: every error of [from_string] comes from one segment of the
    input and is one of three: the error of [int] on the second or third
    token of that segment, the duplicate device kind at a device
    segment, or the unknown attribute at an unrecognised segment with a
    non-empty first token; the last two carry the whole input. *)
Theorem from_string_errors spec h e :
  (from_string spec h).2 = Raise e ->
  exists y,
    y ∈ splits spec
    /\ ((exists t, (t = item y 1 \/ t = item y 2)
                   /\ e = InvalidLiteral t /\ int (VStr t) = Raise e)
        \/ (e = MultipleDeviceTypes spec /\ device_form y = true)
        \/ (e = UnknownAttribute (item y 0) spec
            /\ recognised y = false /\ item y 0 <> "")).
Proof.
  rewrite from_string_loop. unfold parse_loop. cbn [snd]. intros He.
  apply (for_each_error (length h) spec (splits spec) (h ++ [blank])).
  - rewrite length_app. simpl. lia.
  - revert He. destruct (for_each _ _ _).2 as [[]|e']; simpl; [done|].
    by intros [= ->].
Qed.

Lemma from_string_errors_task :
  exists y,
    y ∈ splits "/job:w/task:one"
    /\ ((exists t, (t = item y 1 \/ t = item y 2)
                   /\ InvalidLiteral "one" = InvalidLiteral t
                   /\ int (VStr t) = Raise (InvalidLiteral "one"))
        \/ (InvalidLiteral "one" = MultipleDeviceTypes "/job:w/task:one"
            /\ device_form y = true)
        \/ (InvalidLiteral "one" = UnknownAttribute (item y 0) "/job:w/task:one"
            /\ recognised y = false /\ item y 0 <> "")).
Proof.
  exact (from_string_errors "/job:w/task:one" [] (InvalidLiteral "one") eq_refl).
Defined.

(** ** Composing merges *)

Section Overlay.
Implicit Types (a b c d : fields).

Lemma overlay_assoc a b c : overlay (overlay a b) c = overlay a (overlay b c).
Proof.
  unfold overlay. simpl. f_equal.
  - by destruct (_job c), (_job b).
  - by destruct (_replica c), (_replica b).
  - by destruct (_task c), (_task b).
  - by destruct (device_type c), (device_type b).
  - by destruct (device_index c), (device_index b).
Qed.

Lemma overlay_blank_l d : overlay blank d = d.
Proof.
  destruct d as [j r t ty ix]. unfold overlay. simpl.
  by destruct j, r, t, ty, ix.
Qed.

Lemma overlay_blank_r d : overlay d blank = d.
Proof. by destruct d. Qed.

Lemma overlay_same d : overlay d d = d.
Proof.
  destruct d as [j r t ty ix]. unfold overlay. simpl.
  by destruct j, r, t, ty, ix.
Qed.

Lemma wellformed_overlay a b :
  wellformed a = true -> wellformed b = true -> wellformed (overlay a b) = true.
Proof.
  destruct a as [ja ra ta tya ixa], b as [jb rb tb tyb ixb].
  unfold wellformed, coupled, overlay. simpl.
  intros Ha Hb.
  destruct ja, jb, tya, tyb, ixa, ixb; simpl in *; try done;
    repeat match goal with
           | H : _ && _ = true |- _ => apply andb_true_iff in H as [? ?]
           end;
    repeat (apply andb_true_iff; split); done.
Qed.

End Overlay.

(** X10: merges compose: merging [a] and then [b] into [self] leaves
    [self] as merging once the spec that [b] merged into [a] gives, and
    [a] and [b] themselves are not modified. *)
Theorem merge_from_twice h self a b :
  self < length h -> a <> self -> b <> self ->
  (Device.merge_from self a;; Device.merge_from self b) h =
  (<[self := overlay (h !!! self) (overlay (h !!! a) (h !!! b))]> h, Return tt).
Proof.
  intros Hlt Ha Hb. unfold mbind, Py_bind.
  rewrite merge_from_overlay by done.
  rewrite merge_from_overlay by (by rewrite length_insert).
  rewrite list_lookup_total_insert_eq by done.
  rewrite list_lookup_total_insert_ne by done.
  by rewrite list_insert_insert_eq, overlay_assoc.
Qed.

Lemma merge_from_twice_example :
  (Device.merge_from 0 1;; Device.merge_from 0 2)
    [Fields (Some "w") None None VNone VNone;
     Fields None (Some 1%Z) None (VStr "GPU") VNone;
     Fields (Some "ps") None None (VStr "CPU") (VInt 0)] =
  (<[0 := overlay (Fields (Some "w") None None VNone VNone)
            (overlay (Fields None (Some 1%Z) None (VStr "GPU") VNone)
                     (Fields (Some "ps") None None (VStr "CPU") (VInt 0)))]>
     [Fields (Some "w") None None VNone VNone;
      Fields None (Some 1%Z) None (VStr "GPU") VNone;
      Fields (Some "ps") None None (VStr "CPU") (VInt 0)], Return tt).
Proof.
  apply (merge_from_twice
           [Fields (Some "w") None None VNone VNone;
            Fields None (Some 1%Z) None (VStr "GPU") VNone;
            Fields (Some "ps") None None (VStr "CPU") (VInt 0)] 0 1 2).
  - simpl. lia.
  - discriminate.
  - discriminate.
Defined.

(** X11: merging a spec into itself, or merging a spec with no field
    present, changes nothing in the store. *)
Theorem merge_from_nothing h self dev :
  self < length h ->
  (dev = self \/ h !!! dev = blank) ->
  Device.merge_from self dev h = (h, Return tt).
Proof.
  intros Hlt Hdev. rewrite merge_from_overlay by done.
  f_equal. apply insert_same; [done|].
  destruct Hdev as [-> | ->]; [apply overlay_same|apply overlay_blank_r].
Qed.

Lemma merge_from_nothing_self :
  Device.merge_from 0 0 [Fields (Some "w") None (Some 3%Z) (VStr "cpu") VNone] =
  ([Fields (Some "w") None (Some 3%Z) (VStr "cpu") VNone], Return tt).
Proof.
  apply (merge_from_nothing [Fields (Some "w") None (Some 3%Z) (VStr "cpu") VNone] 0 0).
  - simpl. lia.
  - by left.
Defined.

(** ** Scopes *)

Section Scopes.
Implicit Types (h : heap) (d : fields).

Lemma parsed_wellformed s d r : from_string s [] = ([d], r) -> wellformed d = true.
Proof.
  intros Hs. destruct (from_string_shape s []) as (d' & r' & Hshape & Hd).
  rewrite Hs in Hshape. by injection Hshape as -> _.
Qed.

Lemma from_string_canonical d h :
  wellformed d = true -> from_string (canonical d) h = (h ++ [d], Return (length h)).
Proof.
  intros Hd. rewrite from_string_focus. unfold focus.
  by rewrite parse_loop_wellformed.
Qed.

(** A call of the function of [merge_device(s)] on a candidate, both
    strings being parsable. *)
Lemma merge_device_call s c ds dc h :
  from_string (or_empty s) [] = ([ds], Return 0) ->
  from_string (or_empty c) [] = ([dc], Return 0) ->
  exists f,
    merge_device (SpecStr s) h = (h ++ [ds], Return f)
    /\ f {| device := c |} (h ++ [ds]) =
       (h ++ [ds; dc; overlay ds dc], Return (length h + 2)).
Proof.
  intros Hs Hc. eexists. split.
  - by rewrite merge_device_outcome, Hs.
  - rewrite device_function_outcome by (rewrite length_app; simpl; lia).
    simpl device. rewrite Hc, lookup_fresh. simpl.
    rewrite <- app_assoc. simpl. do 2 f_equal. rewrite length_app. simpl. lia.
Qed.

Lemma resolve_outcome a c da dc h :
  from_string a [] = ([da], Return 0) ->
  from_string c [] = ([dc], Return 0) ->
  resolve a c h =
  (h ++ [da; dc; overlay da dc], Return (canonical (overlay da dc))).
Proof.
  intros Ha Hc. unfold resolve, mbind, Py_bind.
  destruct (merge_device_call (Some a) (Some c) da dc h Ha Hc) as (f & -> & ->).
  rewrite to_string_canonical. do 2 f_equal.
  replace (length h + 2) with (length (h ++ [da; dc]))
    by (rewrite length_app; simpl; lia).
  change (h ++ [da; dc; overlay da dc])
    with (h ++ ([da; dc] ++ [overlay da dc])).
  by rewrite app_assoc, lookup_fresh.
Qed.

End Scopes.

(** X12: scopes nest associatively.  For parsable [a], [b] and [c],
    resolving [c] inside [b] and the result inside [a] gives the same
    string as resolving [b] inside [a] and then [c] inside the result:
    the serialisation of the fields of [a] overwritten by those of [b]
    and then by those of [c]. *)
Theorem resolve_nested a b c da db dc h :
  from_string a [] = ([da], Return 0) ->
  from_string b [] = ([db], Return 0) ->
  from_string c [] = ([dc], Return 0) ->
  ((inner ← resolve b c; resolve a inner) h).2
    = Return (canonical (overlay da (overlay db dc)))
  /\ ((outer ← resolve a b; resolve outer c) h).2
     = Return (canonical (overlay da (overlay db dc))).
Proof.
  intros Ha Hb Hc.
  pose proof (parsed_wellformed _ _ _ Ha) as Wa.
  pose proof (parsed_wellformed _ _ _ Hb) as Wb.
  pose proof (parsed_wellformed _ _ _ Hc) as Wc.
  split; unfold mbind, Py_bind.
  - rewrite (resolve_outcome b c db dc h Hb Hc).
    by rewrite (resolve_outcome _ _ da (overlay db dc) _ Ha
                  (from_string_canonical _ [] (wellformed_overlay _ _ Wb Wc))).
  - rewrite (resolve_outcome a b da db h Ha Hb).
    rewrite (resolve_outcome _ c (overlay da db) dc _
               (from_string_canonical _ [] (wellformed_overlay _ _ Wa Wb)) Hc).
    by rewrite overlay_assoc.
Qed.

Lemma resolve_nested_example :
  ((inner ← resolve "/device:GPU:0" "/job:ps/device:CPU:0";
    resolve "/job:worker/task:1" inner) []).2
    = Return (canonical
                (overlay (Fields (Some "worker") None (Some 1%Z) VNone VNone)
                   (overlay (Fields None None None (VStr "GPU") (VInt 0))
                            (Fields (Some "ps") None None (VStr "CPU") (VInt 0)))))
  /\ ((outer ← resolve "/job:worker/task:1" "/device:GPU:0";
       resolve outer "/job:ps/device:CPU:0") []).2
     = Return (canonical
                 (overlay (Fields (Some "worker") None (Some 1%Z) VNone VNone)
                    (overlay (Fields None None None (VStr "GPU") (VInt 0))
                             (Fields (Some "ps") None None (VStr "CPU") (VInt 0))))).
Proof.
  exact (resolve_nested "/job:worker/task:1" "/device:GPU:0" "/job:ps/device:CPU:0"
           (Fields (Some "worker") None (Some 1%Z) VNone VNone)
           (Fields None None None (VStr "GPU") (VInt 0))
           (Fields (Some "ps") None None (VStr "CPU") (VInt 0)) []
           eq_refl eq_refl eq_refl).
Defined.

(** X13: an empty or missing spec is neutral on either side.  The
    function of [merge_device(None)] returns the candidate's fields
    unchanged, and the function of [merge_device(s)] returns the fields
    of [s] for a node that has no device. *)
Theorem merge_device_neutral :
  (forall c dc h,
     from_string (or_empty c) [] = ([dc], Return 0) ->
     exists f,
       merge_device (SpecStr None) h = (h ++ [blank], Return f)
       /\ f {| device := c |} (h ++ [blank]) =
          (h ++ [blank; dc; dc], Return (length h + 2)))
  /\ (forall s ds h,
        from_string (or_empty s) [] = ([ds], Return 0) ->
        exists f,
          merge_device (SpecStr s) h = (h ++ [ds], Return f)
          /\ f {| device := None |} (h ++ [ds]) =
             (h ++ [ds; blank; ds], Return (length h + 2))).
Proof.
  split.
  - intros c dc h Hc.
    destruct (merge_device_call None c blank dc h eq_refl Hc) as (f & Hm & Hf).
    exists f. by rewrite overlay_blank_l in Hf.
  - intros s ds h Hs.
    destruct (merge_device_call s None ds blank h Hs eq_refl) as (f & Hm & Hf).
    exists f. by rewrite overlay_blank_r in Hf.
Qed.

Lemma merge_device_neutral_gpu :
  exists f,
    merge_device (SpecStr None) [] = ([] ++ [blank], Return f)
    /\ f {| device := Some "/gpu:1" |} ([] ++ [blank]) =
       ([] ++ [blank; Fields None None None (VStr "GPU") (VInt 1);
               Fields None None None (VStr "GPU") (VInt 1)],
        Return (length ([] : heap) + 2)).
Proof.
  exact (proj1 merge_device_neutral (Some "/gpu:1")
           (Fields None None None (VStr "GPU") (VInt 1)) [] eq_refl).
Defined.

(** X14: an invalid spec string makes [merge_device] raise the parser's
    error at once, and no function is returned; an invalid candidate
    makes the returned function raise the parser's error, leaving in the
    store only the object the failed parse allocated. *)
Theorem merge_device_errors :
  (forall s hs e h,
     from_string (or_empty s) [] = (hs, Raise e) ->
     merge_device (SpecStr s) h = (h ++ hs, Raise e))
  /\ (forall arg h h1 f node hc e h',
        merge_device arg h = (h1, Return f) ->
        captured arg h < length h' ->
        from_string (or_empty (device node)) [] = (hc, Raise e) ->
        f node h' = (h' ++ hc, Raise e)).
Proof.
  split.
  - intros s hs e h Hs. by rewrite merge_device_outcome, Hs.
  - intros arg h h1 f node hc e h'. rewrite merge_device_outcome.
    destruct arg as [d|s]; simpl.
    + intros [= <- <-] Hlt Hc. by rewrite device_function_outcome, Hc.
    + destruct (from_string (or_empty s) []) as [hs [l|e']]; [|done].
      intros [= <- <-] Hlt Hc. by rewrite device_function_outcome, Hc.
Qed.

Lemma merge_device_errors_bogus :
  merge_device (SpecStr (Some "/bogus:x")) [] =
  ([] ++ [blank], Raise (UnknownAttribute "bogus" "/bogus:x")).
Proof.
  exact (proj1 merge_device_errors (Some "/bogus:x") [blank]
           (UnknownAttribute "bogus" "/bogus:x") [] eq_refl).
Defined.

(** X15: [check_valid] raises exactly the error of the parser and
    returns nothing otherwise; it adds the parsed object to the store
    and touches no other.  It accepts every string that [to_string]
    returns for a well-formed spec. *)
Theorem check_valid_outcome :
  (forall spec h,
     exists d r,
       from_string spec [] = ([d], r)
       /\ check_valid spec h =
          (h ++ [d], match r with Return _ => Return tt | Raise e => Raise e end))
  /\ (forall h self,
        wellformed (h !!! self) = true ->
        (s ← Device.to_string self; check_valid s) h = (h ++ [h !!! self], Return tt)).
Proof.
  split.
  - intros spec h. unfold check_valid, mbind, mret, Py_bind, Py_ret.
    rewrite (from_string_focus spec h), (from_string_focus spec []).
    destruct (focus (parse_loop spec) blank) as [d [[]|e]]; by eexists _, _.
  - intros h self Hd. unfold check_valid, mbind, mret, Py_bind, Py_ret.
    by rewrite to_string_canonical, from_string_canonical.
Qed.

Lemma check_valid_outcome_wildcard :
  (s ← Device.to_string 0; check_valid s) [Fields None None None (VStr "GPU") VNone]
  = ([Fields None None None (VStr "GPU") VNone] ++
     [[Fields None None None (VStr "GPU") VNone] !!! 0], Return tt).
Proof.
  exact (proj2 check_valid_outcome [Fields None None None (VStr "GPU") VNone] 0 eq_refl).
Defined.

(** X16: merging keeps specs well formed: after [self.merge_from(dev)]
    on two well-formed specs, [self] is well formed again, so that what
    it serialises to parses back to its fields. *)
Theorem merge_from_wellformed h self dev :
  self < length h ->
  wellformed (h !!! self) = true ->
  wellformed (h !!! dev) = true ->
  exists h' s,
    (Device.merge_from self dev;; Device.to_string self) h = (h', Return s)
    /\ wellformed (h' !!! self) = true
    /\ from_string s h' = (h' ++ [h' !!! self], Return (length h')).
Proof.
  intros Hlt Hs Hd. unfold mbind, Py_bind.
  rewrite merge_from_overlay, to_string_canonical by done.
  rewrite list_lookup_total_insert_eq by done.
  eexists _, _. split; [done|].
  rewrite list_lookup_total_insert_eq by done.
  pose proof (wellformed_overlay _ _ Hs Hd) as Ho.
  split; [done|]. by apply from_string_canonical.
Qed.

Lemma merge_from_wellformed_worker :
  exists h' s,
    (Device.merge_from 0 1;; Device.to_string 0)
      [Fields (Some "worker") None None (VStr "GPU") (VInt 1);
       Fields None (Some (-1)%Z) None (VStr "CPU") VNone] = (h', Return s)
    /\ wellformed (h' !!! 0) = true
    /\ from_string s h' = (h' ++ [h' !!! 0], Return (length h')).
Proof.
  apply (merge_from_wellformed
           [Fields (Some "worker") None None (VStr "GPU") (VInt 1);
            Fields None (Some (-1)%Z) None (VStr "CPU") VNone] 0 1).
  - simpl. lia.
  - reflexivity.
  - reflexivity.
Defined.
